(** * WhatsApp chat parser: the parsing layer of [whatsapp_analyzer/parser.py]

    A shallow embedding of [ChatParser] (line grammars, timestamp
    normalisation, message assembly, keyword classification, the sorted
    table and its summary) and the properties of it that the specification
    states.

    Conventions of the embedding.
    - A Python [str] is a list of characters.  A character is a code point
      below 256, carried by the Standard Library's [ascii]; on that range
      [str.isspace], [str.lower], the regex classes [\s], [\d] and [.] are
      exactly the tables given in [Text].
    - [re.match] is a backtracking matcher with greedy bounded repetition and
      ordered alternation, anchored at the first character and free at the
      end.
    - [datetime.strptime] follows CPython's [_strptime]: the format is turned
      into a regex (case-insensitive, runs of blanks becoming [\s+]), the
      match has to end where the data ends, and the fields go through the
      [datetime] constructor's range checks.  The locale is the C locale
      ([am]/[pm]).
    - An exception is a value of [exn]; code that may raise returns a
      [result]. *)

From Stdlib Require Import List Ascii String ZArith Lia Bool Arith.
From Stdlib Require Import Sorting.Sorted Sorting.Permutation.
Import ListNotations.

Set Implicit Arguments.

(* ================================================================== *)
(** ** Text: Python strings *)

Module Text.

Definition str := list ascii.

(** A literal of the source, written as a Rocq string. *)
Definition s (x : string) : str := list_ascii_of_string x.

Definition code (c : ascii) : nat := nat_of_ascii c.

Definition between (lo hi : nat) (c : ascii) : bool :=
  (lo <=? code c) && (code c <=? hi).

(** [str.isspace] and the regex class [\s]: TAB..CR, FS..US, space, NEL, NBSP. *)
Definition is_space (c : ascii) : bool :=
  between 9 13 c || between 28 32 c || (code c =? 133) || (code c =? 160).

(** The regex class [\d]. *)
Definition is_digit (c : ascii) : bool := between 48 57 c.

(** The regex class [.] (no DOTALL): anything but a line feed. *)
Definition newline : ascii := ascii_of_nat 10.
Definition is_dot (c : ascii) : bool := negb (Ascii.eqb c newline).

(** [str.lower] on one character: A-Z, and the upper-case letters of
    Latin-1 (U+00C0..U+00DE without the multiplication sign). *)
Definition lower_char (c : ascii) : ascii :=
  if between 65 90 c || (between 192 222 c && negb (code c =? 215))
  then ascii_of_nat (code c + 32) else c.

Definition lower (x : str) : str := map lower_char x.

(** [str.lstrip], [str.rstrip], [str.strip] with no argument. *)
Fixpoint lstrip (x : str) : str :=
  match x with
  | c :: x' => if is_space c then lstrip x' else x
  | [] => []
  end.

Definition rstrip (x : str) : str := rev (lstrip (rev x)).

Definition strip (x : str) : str := rstrip (lstrip x).

(** [x.startswith(sub)]. *)
Fixpoint startswith (sub x : str) : bool :=
  match sub, x with
  | [], _ => true
  | a :: sub', b :: x' => Ascii.eqb a b && startswith sub' x'
  | _ :: _, [] => false
  end.

(** [sub in x]. *)
Fixpoint contains (sub x : str) : bool :=
  startswith sub x ||
  match x with
  | [] => false
  | _ :: x' => contains sub x'
  end.

(** [x.split(sep)] for a one-character separator: never the empty list. *)
Fixpoint split (sep : ascii) (x : str) : list str :=
  match x with
  | [] => [[]]
  | c :: x' =>
      if Ascii.eqb c sep then [] :: split sep x'
      else match split sep x' with
           | l :: ls => (c :: l) :: ls
           | [] => [[c]]
           end
  end.

(** [sep.join(ls)] for a one-character separator. *)
Fixpoint join (sep : ascii) (ls : list str) : str :=
  match ls with
  | [] => []
  | [l] => l
  | l :: ls' => l ++ sep :: join sep ls'
  end.

(** [int(x)] on a run of decimal digits, blanks around it ignored. *)
Definition digit_value (c : ascii) : Z := Z.of_nat (code c - 48).

Definition int_of_str (x : str) : Z :=
  fold_left (fun acc c => 10 * acc + digit_value c)%Z (strip x) 0%Z.

Definition has_nonspace (x : str) : bool := existsb (fun c => negb (is_space c)) x.

End Text.

Import Text.

(* ================================================================== *)
(** ** Re: the fragment of Python's [re] that the parser uses *)

Module Re.

(** Every quantifier of the source patterns applies to a character class,
    so repetition is a constructor on classes: [Cls p lo hi] is the greedy
    [p{lo,hi}], [hi = None] standing for no upper bound. *)
Inductive regex : Type :=
| Eps
| Cls (p : ascii -> bool) (lo : nat) (hi : option nat)
| Seq (r1 r2 : regex)
| Alt (r1 r2 : regex)
| Grp (n : nat) (r : regex).

Definition captures := list (nat * str).

Fixpoint group (n : nat) (g : captures) : str :=
  match g with
  | [] => []
  | (m, x) :: g' => if Nat.eqb m n then x else group n g'
  end.

Section Matcher.

Variable A : Type.

(** Greedy repetition: take a character while allowed, and hand back one
    at a time when the rest of the pattern fails. *)
Fixpoint rep (p : ascii -> bool) (lo : nat) (hi : option nat) (x : str)
    (k : str -> option A) : option A :=
  let stop := match lo with O => k x | S _ => None end in
  match hi with
  | Some O => stop
  | _ =>
      match x with
      | c :: x' =>
          if p c then
            match rep p (pred lo) (option_map pred hi) x' k with
            | Some v => Some v
            | None => stop
            end
          else stop
      | [] => stop
      end
  end.

Fixpoint exec (r : regex) (x : str) (g : captures)
    (k : str -> captures -> option A) : option A :=
  match r with
  | Eps => k x g
  | Cls p lo hi => rep p lo hi x (fun x' => k x' g)
  | Seq r1 r2 => exec r1 x g (fun x' g' => exec r2 x' g' k)
  | Alt r1 r2 =>
      match exec r1 x g k with
      | Some v => Some v
      | None => exec r2 x g k
      end
  | Grp n r1 =>
      exec r1 x g
        (fun x' g' => k x' ((n, firstn (List.length x - List.length x') x) :: g'))
  end.

End Matcher.

(** [re.match(r, x)]: the captures and the unmatched rest of [x]. *)
Definition re_match (r : regex) (x : str) : option (captures * str) :=
  exec r x [] (fun x' g => Some (g, x')).

(** Pattern syntax. *)
Definition one (p : ascii -> bool) : regex := Cls p 1 (Some 1).
Definition lit (c : ascii) : regex := one (Ascii.eqb c).
Definition set (cs : string) : regex :=
  one (fun c => existsb (Ascii.eqb c) (s cs)).
Definition range (lo hi : ascii) : regex := one (between (code lo) (code hi)).
Definition digit : regex := one is_digit.
Definition space : regex := one is_space.
Definition digits (lo hi : nat) : regex := Cls is_digit lo (Some hi).
Definition opt (p : ascii -> bool) : regex := Cls p 0 (Some 1).
Definition plus (p : ascii -> bool) : regex := Cls p 1 None.

Fixpoint seq (rs : list regex) : regex :=
  match rs with
  | [] => Eps
  | [r] => r
  | r :: rs' => Seq r (seq rs')
  end.

Fixpoint alt (rs : list regex) : regex :=
  match rs with
  | [] => Cls (fun _ => false) 1 (Some 1)
  | [r] => r
  | r :: rs' => Alt r (alt rs')
  end.

(** What a successful run of [r] consumes and records: from input [x] and
    captures [g] it leaves [x'] and [g']. *)
Fixpoint denote (r : regex) (x : str) (g : captures) (x' : str)
    (g' : captures) : Prop :=
  match r with
  | Eps => x' = x /\ g' = g
  | Cls p lo hi =>
      g' = g /\
      exists w, x = w ++ x' /\ forallb p w = true /\ lo <= List.length w /\
                match hi with Some h => List.length w <= h | None => True end
  | Seq r1 r2 =>
      exists x1 g1, denote r1 x g x1 g1 /\ denote r2 x1 g1 x' g'
  | Alt r1 r2 => denote r1 x g x' g' \/ denote r2 x g x' g'
  | Grp n r1 =>
      exists w g1, denote r1 x g x' g1 /\ x = w ++ x' /\ g' = (n, w) :: g1
  end.

End Re.

Import Re.

(* ================================================================== *)
(** ** Exceptions *)

Inductive exn : Type :=
| ValueError (msg : str)
| FileNotFoundError (msg : str).

Inductive result (A : Type) : Type :=
| Ok (a : A)
| Raise (e : exn).

Arguments Ok {A} a.
Arguments Raise {A} e.

Definition bind {A B : Type} (m : result A) (f : A -> result B) : result B :=
  match m with
  | Ok a => f a
  | Raise e => Raise e
  end.

Notation "x <- m ;; k" := (bind m (fun x => k))
  (at level 61, m at next level, right associativity).

(* ================================================================== *)
(** ** Strptime: [datetime] and [datetime.strptime] *)

Module Strptime.

Local Open Scope char_scope.
Local Open Scope Z_scope.

(** A naive [datetime]; the parser never produces microseconds. *)
Record datetime : Type := mkdt {
  year : Z; month : Z; day : Z; hour : Z; minute : Z; second : Z
}.

Definition is_leap (y : Z) : bool :=
  (y mod 4 =? 0) && ((negb (y mod 100 =? 0)) || (y mod 400 =? 0)).

Definition days_in_month (y m : Z) : Z :=
  if m =? 2 then (if is_leap y then 29 else 28)
  else if (m =? 4) || (m =? 6) || (m =? 9) || (m =? 11) then 30
  else 31.

(** The constructor [datetime(y, m, d, H, M, S)]: [None] is its [ValueError]. *)
Definition new (y m d H M S : Z) : option datetime :=
  if (1 <=? y) && (y <=? 9999) && (1 <=? m) && (m <=? 12) &&
     (1 <=? d) && (d <=? days_in_month y m) &&
     (0 <=? H) && (H <=? 23) && (0 <=? M) && (M <=? 59) &&
     (0 <=? S) && (S <=? 59)
  then Some (mkdt y m d H M S) else None.

(** Comparison of two naive datetimes: field by field, year first. *)
Definition fields (a : datetime) : list Z :=
  [year a; month a; day a; hour a; minute a; second a].

Fixpoint lex_leb (a b : list Z) : bool :=
  match a, b with
  | x :: a', y :: b' =>
      match x ?= y with
      | Lt => true
      | Gt => false
      | Eq => lex_leb a' b'
      end
  | [], _ => true
  | _ :: _, [] => false
  end.

Definition leb (a b : datetime) : bool := lex_leb (fields a) (fields b).

(** Named group of a directive: its letter. *)
Definition key (c : ascii) : nat := code c.

(** A letter of the pattern under [re.IGNORECASE]. *)
Definition ci (c : ascii) : regex := one (fun x => Ascii.eqb (lower_char x) c).

(** The regex of a directive, as in [_strptime.TimeRE]. *)
Definition directive (c : ascii) : option regex :=
  match c with
  | "d" => Some (Grp (key "d")
      (alt [seq [lit "3"; range "0" "1"]; seq [range "1" "2"; digit];
            seq [lit "0"; range "1" "9"]; range "1" "9";
            seq [lit " "; range "1" "9"]]))
  | "m" => Some (Grp (key "m")
      (alt [seq [lit "1"; range "0" "2"]; seq [lit "0"; range "1" "9"];
            range "1" "9"]))
  | "Y" => Some (Grp (key "Y") (seq [digit; digit; digit; digit]))
  | "y" => Some (Grp (key "y") (seq [digit; digit]))
  | "H" => Some (Grp (key "H")
      (alt [seq [lit "2"; range "0" "3"]; seq [range "0" "1"; digit]; digit]))
  | "I" => Some (Grp (key "I")
      (alt [seq [lit "1"; range "0" "2"]; seq [lit "0"; range "1" "9"];
            range "1" "9"]))
  | "M" => Some (Grp (key "M") (alt [seq [range "0" "5"; digit]; digit]))
  | "S" => Some (Grp (key "S")
      (alt [seq [lit "6"; range "0" "1"]; seq [range "0" "5"; digit]; digit]))
  | "p" => Some (Grp (key "p")
      (alt [seq [ci "a"; ci "m"]; seq [ci "p"; ci "m"]]))
  | _ => None
  end.

(** [TimeRE.pattern]: a run of blanks becomes [\s+], [%x] the regex of the
    directive, any other character itself.  [None]: a bad directive. *)
Fixpoint pattern (in_blanks : bool) (fmt : str) : option (list regex) :=
  match fmt with
  | [] => Some []
  | c :: rest =>
      if is_space c then
        if in_blanks then pattern true rest
        else option_map (cons (plus is_space)) (pattern true rest)
      else if Ascii.eqb c "%" then
        match rest with
        | d :: rest' =>
            match directive d, pattern false rest' with
            | Some r, Some rs => Some (r :: rs)
            | _, _ => None
            end
        | [] => None
        end
      else option_map (cons (lit c)) (pattern false rest)
  end.

Fixpoint find (n : nat) (g : captures) : option str :=
  match g with
  | [] => None
  | (m, x) :: g' => if Nat.eqb m n then Some x else find n g'
  end.

Definition str_eqb (a b : str) : bool :=
  if list_eq_dec ascii_dec a b then true else false.

(** The conversion loop of [_strptime] over the matched groups. *)
Definition year_of (g : captures) : Z :=
  match find (key "y") g, find (key "Y") g with
  | Some y, _ => let n := int_of_str y in if n <=? 68 then n + 2000 else n + 1900
  | None, Some y => int_of_str y
  | None, None => 1900
  end.

Definition field_of (c : ascii) (default : Z) (g : captures) : Z :=
  match find (key c) g with
  | Some x => int_of_str x
  | None => default
  end.

Definition hour_of (g : captures) : Z :=
  match find (key "I") g with
  | Some x =>
      let h := int_of_str x in
      let ampm := lower (match find (key "p") g with Some p => p | None => [] end) in
      if str_eqb ampm [] || str_eqb ampm (s "am") then (if h =? 12 then 0 else h)
      else if str_eqb ampm (s "pm") then (if h =? 12 then h else h + 12)
      else h
  | None => field_of "H" 0 g
  end.

(** [datetime.strptime(data, fmt)]; [None] is its [ValueError]: a bad
    directive, no match, unconverted data, or a field out of range. *)
Definition strptime (data fmt : str) : option datetime :=
  match pattern false fmt with
  | None => None
  | Some rs =>
      match re_match (seq rs) data with
      | Some (g, []) =>
          new (year_of g) (field_of "m" 1 g) (field_of "d" 1 g)
              (hour_of g) (field_of "M" 0 g) (field_of "S" 0 g)
      | Some (_, _ :: _) => None
      | None => None
      end
  end.

End Strptime.

(* ================================================================== *)
(** ** ChatParser: [class ChatParser] of [parser.py] *)

Module ChatParser.

Local Open Scope char_scope.

(** *** The line grammars *)

Inductive grammar : Type :=
| ANDROID_PATTERN
| IOS_PATTERN
| ALTERNATIVE_PATTERN.

Definition grammar_eqb (p q : grammar) : bool :=
  match p, q with
  | ANDROID_PATTERN, ANDROID_PATTERN => true
  | IOS_PATTERN, IOS_PATTERN => true
  | ALTERNATIVE_PATTERN, ALTERNATIVE_PATTERN => true
  | _, _ => false
  end.

(** [\d{1,2}/\d{1,2}/\d{2,4},\s\d{1,2}:\d{2}], shared by the three. *)
Definition date_hour_minute : list regex :=
  [digits 1 2; lit "/"; digits 1 2; lit "/"; digits 2 4; lit ","; space;
   digits 1 2; lit ":"; digits 2 2].

(** [\s?[APap][Mm]] *)
Definition am_pm : list regex := [opt is_space; set "APap"; set "Mm"].

(** [([^:]+):\s(.+)] *)
Definition author_body : list regex :=
  [Grp 2 (plus (fun c => negb (Ascii.eqb c ":"))); lit ":"; space;
   Grp 3 (plus is_dot)].

Definition regex_of (p : grammar) : regex :=
  match p with
  | ANDROID_PATTERN =>
      (* (\d{1,2}/\d{1,2}/\d{2,4},\s\d{1,2}:\d{2}\s?[APap][Mm])\s-\s([^:]+):\s(.+) *)
      seq (Grp 1 (seq (date_hour_minute ++ am_pm))
           :: [space; lit "-"; space] ++ author_body)
  | IOS_PATTERN =>
      (* \[(\d{1,2}/\d{1,2}/\d{2,4},\s\d{1,2}:\d{2}:\d{2}\s?[APap][Mm])\]\s([^:]+):\s(.+) *)
      seq (lit "["
           :: Grp 1 (seq (date_hour_minute ++ [lit ":"; digits 2 2] ++ am_pm))
           :: [lit "]"; space] ++ author_body)
  | ALTERNATIVE_PATTERN =>
      (* (\d{1,2}/\d{1,2}/\d{2,4},\s\d{1,2}:\d{2})\s-\s([^:]+):\s(.+) *)
      seq (Grp 1 (seq date_hour_minute)
           :: [space; lit "-"; space] ++ author_body)
  end.

(** The list of [_match_message], in the order of the source. *)
Definition patterns : list grammar :=
  [ANDROID_PATTERN; IOS_PATTERN; ALTERNATIVE_PATTERN].

(** [match.groups()] of a pattern with three groups. *)
Definition groups (g : captures) : str * str * str :=
  (group 1 g, group 2 g, group 3 g).

(** Does [re.match(pattern, line)] succeed? *)
Definition matches (p : grammar) (line : str) : bool :=
  match re_match (regex_of p) line with
  | Some _ => true
  | None => false
  end.

(** The loop of [_match_message], keeping which pattern matched. *)
Fixpoint first_match (ps : list grammar) (line : str)
    : option (grammar * (str * str * str)) :=
  match ps with
  | [] => None
  | p :: ps' =>
      match re_match (regex_of p) line with
      | Some (g, _) => Some (p, groups g)
      | None => first_match ps' line
      end
  end.

Definition _match_message (line : str) : option (str * str * str) :=
  option_map snd (first_match patterns line).

(** Position in the list: the earlier pattern wins. *)
Fixpoint index (p : grammar) (ps : list grammar) : option nat :=
  match ps with
  | [] => None
  | q :: ps' => if grammar_eqb p q then Some O else option_map S (index p ps')
  end.

Definition has_priority (p q : grammar) : bool :=
  match index p patterns, index q patterns with
  | Some i, Some j => Nat.ltb i j
  | _, _ => false
  end.

(** *** The timestamp normaliser *)

Definition formats : list str :=
  map s ["%d/%m/%Y, %I:%M %p";
         "%d/%m/%y, %I:%M %p";
         "%m/%d/%Y, %I:%M %p";
         "%m/%d/%y, %I:%M %p";
         "%d/%m/%Y, %H:%M";
         "%d/%m/%y, %H:%M";
         "%m/%d/%Y, %H:%M";
         "%m/%d/%y, %H:%M";
         "%d/%m/%Y, %I:%M:%S %p";
         "%d/%m/%y, %I:%M:%S %p"]%string.

(** The [for fmt in formats: try ... except ValueError: continue] loop. *)
Fixpoint try_formats (fmts : list str) (timestamp : str)
    : option Strptime.datetime :=
  match fmts with
  | [] => None
  | fmt :: fmts' =>
      match Strptime.strptime (strip timestamp) fmt with
      | Some d => Some d
      | None => try_formats fmts' timestamp
      end
  end.

Definition _parse_datetime (timestamp : str) : result Strptime.datetime :=
  match try_formats formats timestamp with
  | Some d => Ok d
  | None => Raise (ValueError (s "Could not parse datetime: " ++ timestamp))
  end.

(** *** The message classifier *)

Definition media_indicators : list str :=
  map s ["<Media omitted>"; "image omitted"; "video omitted"; "audio omitted";
         "document omitted"; "sticker omitted"; "GIF omitted";
         ".jpg"; ".png"; ".mp4"; ".pdf"]%string.

Definition system_indicators : list str :=
  map s ["changed the subject"; "changed this group"; "created group";
         "added"; "removed"; "left"; "joined using this group";
         "security code changed";
         "Messages and calls are end-to-end encrypted";
         "You deleted this message"; "This message was deleted"]%string.

(** [any(indicator.lower() in message.lower() for indicator in indicators)] *)
Definition any_indicator (indicators : list str) (message : str) : bool :=
  existsb (fun indicator => contains (lower indicator) (lower message))
          indicators.

Definition _is_media_message (message : str) : bool :=
  any_indicator media_indicators message.

Definition _is_system_message (author message : str) : bool :=
  any_indicator system_indicators message.

(** *** The message assembler *)

(** The dict built for one message. *)
Record msg : Type := mkmsg {
  datetime : Strptime.datetime;
  author : str;
  message : str;
  is_media : bool;
  is_system : bool
}.

(** The state of the loop: [messages] and [current_message]. *)
Definition assembler : Type := (list msg * option msg)%type.

Definition blank (line : str) : bool :=
  match strip line with [] => true | _ :: _ => false end.

(** [messages.append(current_message)] under [if current_message:]. *)
Definition seal (messages : list msg) (current_message : option msg)
    : list msg :=
  match current_message with
  | Some m => messages ++ [m]
  | None => messages
  end.

(** One turn of [for line in lines]. *)
Definition turn (st : assembler) (line : str) : result assembler :=
  let '(messages, current_message) := st in
  if blank line then Ok st
  else
    match _match_message line with
    | Some (timestamp, author0, message0) =>
        let messages := seal messages current_message in
        d <- _parse_datetime timestamp ;;
        Ok (messages,
            Some {| datetime := d;
                    author := strip author0;
                    message := strip message0;
                    is_media := _is_media_message message0;
                    is_system := _is_system_message author0 message0 |})
    | None =>
        match current_message with
        | Some m =>
            Ok (messages,
                Some {| datetime := datetime m;
                        author := author m;
                        message := message m ++ newline :: strip line;
                        is_media := is_media m;
                        is_system := is_system m |})
        | None => Ok st
        end
    end.

Fixpoint for_lines (lines : list str) (st : assembler) : result assembler :=
  match lines with
  | [] => Ok st
  | line :: lines' => st' <- turn st line ;; for_lines lines' st'
  end.

Definition _parse_content (content : str) : result (list msg) :=
  let lines := split newline content in
  st <- for_lines lines ([], None) ;;
  Ok (seal (fst st) (snd st)).

(** *** The table *)

(** A [DataFrame] built from the list of dicts: its rows, in order. *)
Definition DataFrame : Type := list msg.

Definition empty (df : DataFrame) : bool :=
  match df with [] => true | _ :: _ => false end.

(** [df.sort_values('datetime')]: the rows in non-decreasing order of the
    key.  Rows of equal key keep their order here; pandas' default sort
    promises nothing about them, and no statement below depends on it.
    [pd.to_datetime] leaves the parsed datetimes as they are. *)
Fixpoint insert_row (m : msg) (rows : DataFrame) : DataFrame :=
  match rows with
  | [] => [m]
  | r :: rows' =>
      if Strptime.leb (datetime m) (datetime r) then m :: rows
      else r :: insert_row m rows'
  end.

Definition sort_values (df : DataFrame) : DataFrame :=
  fold_right insert_row [] df.

(** The parser object: [file_path], [messages], [df]. *)
Record parser : Type := mkparser {
  file_path : option str;
  messages : list msg;
  df : option DataFrame
}.

(** [ChatParser(file_path)] *)
Definition __init__ (file_path : option str) : parser :=
  {| file_path := file_path; messages := []; df := None |}.

(** The files that exist, with their text: a path is either absent or a
    text file that [open] and [f.read()] return decoded.  A path that is a
    directory, unreadable or not UTF-8 is outside this model, and so are
    the exceptions [open] and [read] raise for it. *)
Definition filesystem : Type := str -> option str.

(** [a or b] on optional strings: [None] and [''] are false. *)
Definition or_else (a b : option str) : option str :=
  match a with
  | Some (_ :: _) => a
  | _ => b
  end.

(** [load_chat]: the value returned or the exception raised, and the
    parser object afterwards.  [pd.DataFrame] and [pd.to_datetime] are taken
    not to raise; what pandas does with a year outside the range of its
    timestamps depends on its version and is not modelled. *)
Definition load_chat (self : parser) (fs : filesystem) (path_arg : option str)
    : result DataFrame * parser :=
  match or_else path_arg (file_path self) with
  | None | Some [] => (Raise (ValueError (s "No file path provided")), self)
  | Some path =>
      match fs path with
      | None =>
          (Raise (FileNotFoundError (s "Chat file not found: " ++ path)), self)
      | Some content =>
          match _parse_content content with
          | Raise e => (Raise e, self)
          | Ok msgs =>
              let table := if empty msgs then msgs else sort_values msgs in
              (Ok table,
               {| file_path := file_path self;
                  messages := msgs;
                  df := Some table |})
          end
      end
  end.

(** *** The summary *)

Inductive value : Type :=
| VInt (n : nat)
| VNames (names : list str)
| VRange (start finish : Strptime.datetime).

(** A dict with string keys, in insertion order. *)
Definition dict : Type := list (str * value).

Fixpoint unique (seen names : list str) : list str :=
  match names with
  | [] => []
  | n :: names' =>
      if existsb (Strptime.str_eqb n) seen then unique seen names'
      else n :: unique (n :: seen) names'
  end.

Definition earliest (a b : Strptime.datetime) : Strptime.datetime :=
  if Strptime.leb a b then a else b.

Definition latest (a b : Strptime.datetime) : Strptime.datetime :=
  if Strptime.leb a b then b else a.

Definition count (f : msg -> bool) (rows : DataFrame) : nat :=
  List.length (filter f rows).

Definition get_chat_info (self : parser) : dict :=
  match df self with
  | None | Some [] => []
  | Some ((r :: rows) as table) =>
      let names := unique [] (map author table) in
      [(s "total_messages", VInt (List.length table));
       (s "participants", VInt (List.length names));
       (s "participant_names", VNames names);
       (s "date_range",
        VRange (fold_left earliest (map datetime rows) (datetime r))
               (fold_left latest (map datetime rows) (datetime r)));
       (s "media_messages", VInt (count is_media table));
       (s "system_messages", VInt (count is_system table));
       (s "text_messages",
        VInt (count (fun m => negb (is_media m) && negb (is_system m)) table))]
  end.

End ChatParser.

Import ChatParser.

(* ================================================================== *)
(** ** ChatAnalyzer: the per-message columns of [analyzer.py] *)

Module ChatAnalyzer.

(** [x.split()] with no argument: the maximal runs of characters that are
    not blank.  [word] is the run being read, last character first. *)
Fixpoint split_blank (word : str) (x : str) : list str :=
  match x with
  | [] => match word with [] => [] | _ :: _ => [rev word] end
  | c :: x' =>
      if is_space c then
        match word with
        | [] => split_blank [] x'
        | _ :: _ => rev word :: split_blank [] x'
        end
      else split_blank (c :: word) x'
  end.

(** [df['message_length'] = df['message'].str.len()] *)
Definition message_length (m : msg) : nat := List.length (message m).

(** [df['word_count'] = df['message'].apply(lambda x: len(str(x).split()))] *)
Definition words (x : str) : nat := List.length (split_blank [] x).

Definition word_count (m : msg) : nat := words (message m).

End ChatAnalyzer.

(* ================================================================== *)
(** ** Vocabulary of the specification *)

(** A header line followed by its continuation lines. *)
Definition block : Type := (str * list str)%type.

Definition lines_of (bs : list block) : list str :=
  flat_map (fun b => fst b :: snd b) bs.

(** A physical line holds no line feed. *)
Definition one_line (l : str) : bool := forallb is_dot l.

(** A header line the code reads through: a grammar matches it and its
    timestamp is in one of the formats of [_parse_datetime].  This is
    narrower than the grammars alone: a line that a grammar matches with a
    timestamp in no format (a month-first iOS line, AM/PM written without a
    blank) is not one, and on it the code raises. *)
Definition is_parsable_header (l : str) : bool :=
  one_line l &&
  match _match_message l with
  | Some (t, _, _) =>
      match try_formats formats t with Some _ => true | None => false end
  | None => false
  end.

(** A continuation line: not blank, and no grammar matches it. *)
Definition is_continuation (l : str) : bool :=
  one_line l && negb (blank l) &&
  match _match_message l with Some _ => false | None => true end.

Definition well_formed (b : block) : bool :=
  is_parsable_header (fst b) && forallb is_continuation (snd b).

(** The body the code seals: the header's captured body, trimmed, and
    newline-joined with the trimmed continuation lines. *)
Definition trimmed_body_of (b : block) : str :=
  match _match_message (fst b) with
  | Some (_, _, body) => join newline (strip body :: map strip (snd b))
  | None => []
  end.

(** The body as the specification words it: the header's captured body as
    it is, newline-joined with the trimmed continuation lines. *)
Definition captured_body_of (b : block) : str :=
  match _match_message (fst b) with
  | Some (_, _, body) => join newline (body :: map strip (snd b))
  | None => []
  end.

(** The first physical line of a body. *)
Fixpoint first_line (x : str) : str :=
  match x with
  | [] => []
  | c :: x' => if is_dot c then c :: first_line x' else []
  end.

(** Non-decreasing order of the timestamps of two rows. *)
Definition not_after (a b : msg) : Prop :=
  Strptime.leb (datetime a) (datetime b) = true.

(** The header line a message was opened from: the line, its captured
    groups, and the continuation lines appended since. *)
Definition opened_from (lines : list str) (m : msg) (line t a b : str)
    (conts : list str) : Prop :=
  In line lines /\ _match_message line = Some (t, a, b) /\
  _parse_datetime t = Ok (datetime m) /\
  author m = strip a /\
  is_media m = _is_media_message b /\
  is_system m = _is_system_message a b /\
  Forall (fun c => In c lines /\ blank c = false /\ _match_message c = None)
         conts /\
  message m = strip b ++ flat_map (fun c => newline :: strip c) conts.

(** A message assembled from the lines: it was opened from one of them. *)
Definition assembled (lines : list str) (m : msg) : Prop :=
  exists line t a b conts, opened_from lines m line t a b conts.

(** The message opened by a header line, with continuation lines appended. *)
Definition message_of (b : block) : option msg :=
  match _match_message (fst b) with
  | Some (t, a, body) =>
      match try_formats formats t with
      | Some d =>
          Some {| datetime := d;
                  author := strip a;
                  message := trimmed_body_of b;
                  is_media := _is_media_message body;
                  is_system := _is_system_message a body |}
      | None => None
      end
  | None => None
  end.

(** The error of a failed timestamp. *)
Definition timestamp_error (e : exn) : Prop :=
  exists t, try_formats formats t = None /\
            e = ValueError (s "Could not parse datetime: " ++ t).

(** A file system with one file. *)
Definition one_file (name content : string) : filesystem :=
  fun path => if Strptime.str_eqb path (s name) then Some (s content) else None.

(** A message after the continuation lines [cs] were appended to it. *)
Definition with_continuations (m : msg) (cs : list str) : msg :=
  {| datetime := datetime m;
     author := author m;
     message := message m ++ flat_map (fun c => newline :: strip c) cs;
     is_media := is_media m;
     is_system := is_system m |}.

(** An indicator that neither starts nor ends with a blank. *)
Definition trimmed (i : str) : bool :=
  match i, rev i with
  | c :: _, d :: _ => negb (is_space c) && negb (is_space d)
  | _, _ => false
  end.

(** How a matched line is laid out around its three groups. *)
Definition layout (p : grammar) (t a b line : str) : Prop :=
  match p with
  | IOS_PATTERN =>
      exists w1 w2, is_space w1 = true /\ is_space w2 = true /\
        line = "["%char :: t ++ "]"%char :: w1 :: a ++ ":"%char :: w2 :: b
  | _ =>
      exists w1 w2 w3,
        is_space w1 = true /\ is_space w2 = true /\ is_space w3 = true /\
        line = t ++ w1 :: "-"%char :: w2 :: a ++ ":"%char :: w3 :: b
  end.

(** The header lines of an input: the lines a grammar matches. *)
Definition is_match (l : str) : bool :=
  match _match_message l with Some _ => true | None => false end.

Definition headers (lines : list str) : list str := filter is_match lines.

(** The author and the timestamp a header line gives to its message. *)
Definition header_author (l : str) : str :=
  match _match_message l with
  | Some (_, a, _) => strip a
  | None => []
  end.

Definition header_time (l : str) : option Strptime.datetime :=
  match _match_message l with
  | Some (t, _, _) => try_formats formats t
  | None => None
  end.

(** [d[key]] on a dict, [None] when the key is missing. *)
Fixpoint lookup (key : str) (d : dict) : option value :=
  match d with
  | [] => None
  | (k, v) :: d' => if Strptime.str_eqb k key then Some v else lookup key d'
  end.

(** A real calendar moment. *)
Definition valid_datetime (d : Strptime.datetime) : Prop :=
  (1 <= Strptime.year d <= 9999 /\
   1 <= Strptime.month d <= 12 /\
   1 <= Strptime.day d <= Strptime.days_in_month (Strptime.year d) (Strptime.month d) /\
   0 <= Strptime.hour d <= 23 /\
   0 <= Strptime.minute d <= 59 /\
   0 <= Strptime.second d <= 59)%Z.

(* ================================================================== *)
(** ** Properties of strings *)

Section TextFacts.

Lemma has_nonspace_forallb (x : str) :
  has_nonspace x = negb (forallb is_space x).
Proof.
  induction x as [|c x IH]; simpl; [reflexivity|].
  rewrite IH. now destruct (is_space c).
Qed.

Lemma lstrip_nil (x : str) : lstrip x = [] <-> forallb is_space x = true.
Proof.
  induction x as [|c x IH]; simpl; [tauto|].
  destruct (is_space c); simpl; [exact IH|]. split; discriminate.
Qed.

Lemma lstrip_has_nonspace (x : str) : has_nonspace (lstrip x) = has_nonspace x.
Proof.
  induction x as [|c x IH]; simpl; [reflexivity|].
  destruct (is_space c) eqn:E; simpl; [exact IH|]. now rewrite E.
Qed.

Lemma has_nonspace_rev (x : str) : has_nonspace (rev x) = has_nonspace x.
Proof.
  unfold has_nonspace. induction x as [|c x IH]; simpl; [reflexivity|].
  rewrite existsb_app, IH. simpl. rewrite orb_false_r. apply orb_comm.
Qed.

Lemma strip_has_nonspace (x : str) : has_nonspace (strip x) = has_nonspace x.
Proof.
  unfold strip, rstrip.
  now rewrite has_nonspace_rev, lstrip_has_nonspace, has_nonspace_rev,
    lstrip_has_nonspace.
Qed.

Lemma strip_nil (x : str) : strip x = [] <-> has_nonspace x = false.
Proof.
  rewrite <- strip_has_nonspace. unfold strip, rstrip.
  set (y := lstrip x). split.
  - intros H. now rewrite H.
  - intros H. rewrite has_nonspace_rev, lstrip_has_nonspace in H.
    rewrite has_nonspace_forallb in H. apply negb_false_iff in H.
    apply lstrip_nil in H. now rewrite H.
Qed.

Lemma blank_has_nonspace (x : str) : blank x = negb (has_nonspace x).
Proof.
  unfold blank. destruct (strip x) eqn:E.
  - apply strip_nil in E. now rewrite E.
  - destruct (has_nonspace x) eqn:H; [reflexivity|].
    apply strip_nil in H. congruence.
Qed.

Lemma blank_first_char (c : ascii) (x : str) :
  is_space c = false -> blank (c :: x) = false.
Proof.
  intros H. rewrite blank_has_nonspace. simpl. now rewrite H.
Qed.

End TextFacts.

(* ================================================================== *)
(** ** Soundness of the matcher *)

Section MatcherFacts.

Variable A : Type.

Lemma rep_sound (p : ascii -> bool) (x : str) :
  forall (lo : nat) (hi : option nat) (k : str -> option A) (v : A),
    rep p lo hi x k = Some v ->
    exists w x', x = w ++ x' /\ forallb p w = true /\ lo <= List.length w /\
                 match hi with Some h => List.length w <= h | None => True end /\
                 k x' = Some v.
Proof.
  induction x as [|c x IH]; intros lo hi k v H.
  - assert (E : lo = 0 /\ k [] = Some v).
    { destruct hi as [[|h]|], lo; simpl in H; try discriminate; auto. }
    destruct E as [-> E]. exists [], []. simpl.
    repeat split; auto. destruct hi; auto with arith.
  - assert (Stop : lo = 0 /\ k (c :: x) = Some v ->
                   exists w x', c :: x = w ++ x' /\ forallb p w = true /\
                     lo <= List.length w /\
                     match hi with Some h => List.length w <= h | None => True end /\
                     k x' = Some v).
    { intros [-> E]. exists [], (c :: x). simpl.
      repeat split; auto. destruct hi; auto with arith. }
    assert (Take : forall hi', p c = true ->
                   rep p (pred lo) hi' x k = Some v ->
                   match hi', hi with
                   | Some h', Some h => S h' <= h
                   | None, None => True
                   | _, _ => False
                   end ->
                   exists w x', c :: x = w ++ x' /\ forallb p w = true /\
                     lo <= List.length w /\
                     match hi with Some h => List.length w <= h | None => True end /\
                     k x' = Some v).
    { intros hi' Hc Hr Hb. apply IH in Hr.
      destruct Hr as (w & x' & -> & Hw & Hlo & Hhi & Hk).
      exists (c :: w), x'. simpl. rewrite Hc, Hw.
      repeat split; auto; [lia|].
      destruct hi' as [h'|], hi as [h|]; try tauto; lia. }
    destruct hi as [[|h]|]; simpl in H.
    + apply Stop. destruct lo; [auto | discriminate].
    + destruct (p c) eqn:Hc.
      * destruct (rep p (pred lo) (Some h) x k) eqn:Hr.
        -- inversion H; subst. apply (Take (Some h)); auto.
        -- apply Stop. destruct lo; [auto | discriminate].
      * apply Stop. destruct lo; [auto | discriminate].
    + destruct (p c) eqn:Hc.
      * destruct (rep p (pred lo) None x k) eqn:Hr.
        -- inversion H; subst. apply (Take None); auto.
        -- apply Stop. destruct lo; [auto | discriminate].
      * apply Stop. destruct lo; [auto | discriminate].
Qed.

Lemma denote_suffix (r : regex) :
  forall x g x' g', denote r x g x' g' -> exists w, x = w ++ x'.
Proof.
  induction r as [|p lo hi|r1 IH1 r2 IH2|r1 IH1 r2 IH2|n r IH];
    simpl; intros x g x' g' H.
  - destruct H as [-> _]. now exists [].
  - destruct H as (_ & w & -> & _). now exists w.
  - destruct H as (x1 & g1 & H1 & H2).
    apply IH1 in H1. apply IH2 in H2.
    destruct H1 as [w1 ->], H2 as [w2 ->].
    exists (w1 ++ w2). now rewrite app_assoc.
  - destruct H as [H|H]; eauto.
  - destruct H as (w & g1 & _ & -> & _). now exists w.
Qed.

Lemma firstn_prefix (w x' : str) :
  firstn (List.length (w ++ x') - List.length x') (w ++ x') = w.
Proof.
  rewrite length_app, Nat.add_sub.
  rewrite firstn_app, Nat.sub_diag, firstn_all. simpl. apply app_nil_r.
Qed.

Lemma exec_sound (r : regex) :
  forall x g (k : str -> captures -> option A) v,
    exec r x g k = Some v ->
    exists x' g', denote r x g x' g' /\ k x' g' = Some v.
Proof.
  induction r as [|p lo hi|r1 IH1 r2 IH2|r1 IH1 r2 IH2|n r IH];
    simpl; intros x g k v H.
  - exists x, g. auto.
  - apply rep_sound in H. destruct H as (w & x' & -> & Hw & Hlo & Hhi & Hk).
    exists x', g. repeat split; auto. exists w. auto.
  - apply IH1 in H. destruct H as (x1 & g1 & H1 & H).
    apply IH2 in H. destruct H as (x' & g' & H2 & H).
    exists x', g'. split; auto. exists x1, g1. auto.
  - destruct (exec r1 x g k) eqn:E.
    + inversion H; subst. apply IH1 in E.
      destruct E as (x' & g' & H1 & Hk). exists x', g'. auto.
    + apply IH2 in H. destruct H as (x' & g' & H2 & Hk). exists x', g'. auto.
  - apply IH in H. destruct H as (x' & g1 & H1 & Hk).
    destruct (denote_suffix _ _ _ _ _ H1) as [w ->].
    rewrite firstn_prefix in Hk.
    exists x', ((n, w) :: g1). split; auto. exists w, g1. auto.
Qed.

End MatcherFacts.

Lemma re_match_sound (r : regex) (x : str) (g : captures) (rest : str) :
  re_match r x = Some (g, rest) -> denote r x [] rest g.
Proof.
  unfold re_match. intros H. apply exec_sound in H.
  destruct H as (x' & g' & H & E). now inversion E; subst.
Qed.

(* ================================================================== *)
(** ** Properties of the line grammars *)

Ltac open_denote H :=
  cbn [regex_of seq app date_hour_minute am_pm author_body denote
       digits lit space one set opt plus] in H;
  repeat match goal with
         | H' : exists _, _ |- _ => destruct H'
         | H' : _ /\ _ |- _ => destruct H'
         end;
  subst;
  repeat match goal with
         | H' : ?a ++ ?r = ?b ++ ?r |- _ => apply app_inv_tail in H'; subst
         end.

Lemma class_head (p : ascii -> bool) (w : str) (n : nat) :
  forallb p w = true -> S n <= List.length w ->
  exists c w', w = c :: w' /\ p c = true.
Proof.
  destruct w as [|c w']; simpl; intros H L; [lia|].
  apply andb_true_iff in H. exists c, w'. tauto.
Qed.

Lemma digit_not_space (c : ascii) : is_digit c = true -> is_space c = false.
Proof.
  unfold is_digit, is_space, between. intros H.
  apply andb_true_iff in H. destruct H as [H1 H2].
  apply Nat.leb_le in H1, H2.
  repeat match goal with
         | |- context [Nat.leb ?a ?b] => destruct (Nat.leb_spec a b)
         | |- context [Nat.eqb ?a ?b] => destruct (Nat.eqb_spec a b)
         end; simpl; try reflexivity; lia.
Qed.

(** What a match of any of the three grammars looks like: the three groups
    in order, a first character fixed by the grammar, a body of at least
    one character and within one line. *)
Lemma grammar_shape (p : grammar) (line : str) (g : captures) (rest : str) :
  re_match (regex_of p) line = Some (g, rest) ->
  exists t a b, g = [(3, b); (2, a); (1, t)] /\
    (exists c tl, line = c :: tl /\
       if grammar_eqb p IOS_PATTERN then c = "["%char else is_digit c = true) /\
    b <> [] /\ forallb is_dot b = true.
Proof.
  intros H. apply re_match_sound in H.
  destruct p; open_denote H;
    match goal with
    | |- exists t a b, [(3, ?b0); (2, ?a0); (1, ?t0)] = _ /\ _ =>
        exists t0, a0, b0
    end;
    (split; [reflexivity|]); (split; [|split; [|assumption]]).
  all: try (match goal with
            | L : 1 <= List.length ?b0 |- ?b0 <> [] =>
                intros ->; simpl in L; lia
            end).
  all: match goal with
       | Hp : forallb ?p ?w = true, L : 1 <= List.length ?w
         |- exists c tl, ?w ++ _ = _ /\ _ =>
           destruct (class_head p w Hp L) as (c & w' & -> & Hc);
           exists c; eexists; split; [reflexivity|]; simpl
       end.
  all: try assumption.
  now apply Ascii.eqb_eq in Hc.
Qed.

Lemma first_match_sound (ps : list grammar) (line : str) p t a b :
  first_match ps line = Some (p, (t, a, b)) ->
  In p ps /\ exists rest, re_match (regex_of p) line = Some ([(3, b); (2, a); (1, t)], rest).
Proof.
  induction ps as [|q ps IH]; simpl; [discriminate|].
  destruct (re_match (regex_of q) line) as [[g rest]|] eqn:E.
  - intros H. destruct (grammar_shape _ _ E) as (t' & a' & b' & -> & _).
    inversion H; subst. split; [now left | now exists rest].
  - intros H. apply IH in H. destruct H as [H1 H2]. split; [now right | exact H2].
Qed.

Lemma match_message_shape (line t a b : str) :
  _match_message line = Some (t, a, b) ->
  (exists c tl, line = c :: tl /\ is_space c = false) /\
  b <> [] /\ forallb is_dot b = true.
Proof.
  unfold _match_message. destruct (first_match patterns line) as [[p [[t' a'] b']]|] eqn:E;
    simpl; [|discriminate].
  intros H. inversion H; subst.
  apply first_match_sound in E. destruct E as (_ & rest & E).
  destruct (grammar_shape _ _ E) as (t' & a' & b' & Hg & (c & tl & -> & Hc) & Hb & Hd).
  inversion Hg; subst. repeat split; auto.
  exists c, tl. split; [reflexivity|].
  destruct p; simpl in Hc; try now apply digit_not_space. now subst.
Qed.

Lemma match_message_not_blank (line t a b : str) :
  _match_message line = Some (t, a, b) -> blank line = false.
Proof.
  intros H. apply match_message_shape in H.
  destruct H as ((c & tl & -> & Hc) & _). now apply blank_first_char.
Qed.

Lemma matches_first_char (p : grammar) (line : str) :
  matches p line = true ->
  exists c tl, line = c :: tl /\
    if grammar_eqb p IOS_PATTERN then c = "["%char else is_digit c = true.
Proof.
  unfold matches. destruct (re_match (regex_of p) line) as [[g rest]|] eqn:E;
    [|discriminate].
  intros _. destruct (grammar_shape _ _ E) as (_ & _ & _ & _ & H & _). exact H.
Qed.

(* ================================================================== *)
(** ** Properties of the assembler *)

Lemma for_lines_app (l1 l2 : list str) (st : assembler) :
  for_lines (l1 ++ l2) st = (st' <- for_lines l1 st ;; for_lines l2 st').
Proof.
  revert st. induction l1 as [|l l1 IH]; intros st; simpl; [reflexivity|].
  destruct (turn st l); simpl; auto.
Qed.

Lemma parse_datetime_ok (t : str) (d : Strptime.datetime) :
  _parse_datetime t = Ok d <-> try_formats formats t = Some d.
Proof.
  unfold _parse_datetime. destruct (try_formats formats t); split; congruence.
Qed.

Lemma parse_datetime_raise (t : str) (e : exn) :
  _parse_datetime t = Raise e ->
  try_formats formats t = None /\
  e = ValueError (s "Could not parse datetime: " ++ t).
Proof.
  unfold _parse_datetime. destruct (try_formats formats t); [discriminate|].
  intros H. inversion H. auto.
Qed.

(** The three cases of one turn of the loop. *)
Lemma turn_blank (st : assembler) (line : str) :
  blank line = true -> turn st line = Ok st.
Proof. destruct st. unfold turn. now intros ->. Qed.

Lemma turn_header (msgs : list msg) (cur : option msg) (line t a b : str) :
  _match_message line = Some (t, a, b) ->
  turn (msgs, cur) line =
  (d <- _parse_datetime t ;;
   Ok (seal msgs cur,
       Some {| datetime := d; author := strip a; message := strip b;
               is_media := _is_media_message b;
               is_system := _is_system_message a b |})).
Proof.
  intros H. unfold turn. rewrite (match_message_not_blank _ H), H. reflexivity.
Qed.

Lemma turn_continuation (msgs : list msg) (m : msg) (line : str) :
  blank line = false -> _match_message line = None ->
  turn (msgs, Some m) line =
  Ok (msgs, Some {| datetime := datetime m; author := author m;
                    message := message m ++ newline :: strip line;
                    is_media := is_media m; is_system := is_system m |}).
Proof. intros H1 H2. unfold turn. now rewrite H1, H2. Qed.

Lemma turn_garbage (msgs : list msg) (line : str) :
  _match_message line = None -> turn (msgs, None) line = Ok (msgs, None).
Proof. intros H. unfold turn. rewrite H. now destruct (blank line). Qed.

Lemma turn_raise (st : assembler) (line : str) (e : exn) :
  turn st line = Raise e -> timestamp_error e.
Proof.
  destruct st as [msgs cur]. destruct (blank line) eqn:B.
  - now rewrite turn_blank.
  - destruct (_match_message line) as [[[t a] b]|] eqn:M.
    + rewrite (turn_header _ _ _ M).
      destruct (_parse_datetime t) eqn:P; simpl; [discriminate|].
      intros H. inversion H; subst. apply parse_datetime_raise in P.
      now exists t.
    + destruct cur as [m|].
      * now rewrite turn_continuation.
      * now rewrite turn_garbage.
Qed.

Lemma for_lines_raise (lines : list str) :
  forall st e, for_lines lines st = Raise e -> timestamp_error e.
Proof.
  induction lines as [|l lines IH]; simpl; intros st e H; [discriminate|].
  destruct (turn st l) eqn:T; simpl in H; eauto using turn_raise.
  inversion H; subst. eauto using turn_raise.
Qed.

(** A header with a timestamp in no known format stops the loop. *)
Lemma for_lines_bad_timestamp (lines : list str) (line t a b : str) :
  In line lines -> _match_message line = Some (t, a, b) ->
  try_formats formats t = None ->
  forall st, exists e, for_lines lines st = Raise e /\ timestamp_error e.
Proof.
  intros HIn M F. induction lines as [|l lines IH]; [contradiction|].
  intros st. simpl. destruct (turn st l) as [st'|e] eqn:T; simpl.
  - destruct HIn as [->|HIn]; [|now apply IH].
    destruct st as [msgs cur]. rewrite (turn_header _ _ _ M) in T.
    unfold _parse_datetime in T. rewrite F in T. discriminate.
  - exists e. split; [reflexivity|]. eauto using turn_raise.
Qed.

(** Without a header line nothing is opened. *)
Lemma for_lines_no_header (lines : list str) (msgs : list msg) :
  Forall (fun l => blank l = true \/ _match_message l = None) lines ->
  for_lines lines (msgs, None) = Ok (msgs, None).
Proof.
  induction 1 as [|l lines [B|M] _ IH]; cbn [for_lines]; [reflexivity| |].
  - now rewrite turn_blank.
  - now rewrite turn_garbage.
Qed.

(** Every message, sealed or open, was opened from a header line of the
    input and extended by continuation lines only. *)
Lemma turn_assembled (L : list str) (st st' : assembler) (line : str) :
  In line L -> turn st line = Ok st' ->
  Forall (assembled L) (seal (fst st) (snd st)) ->
  Forall (assembled L) (seal (fst st') (snd st')).
Proof.
  intros HIn T Inv. destruct st as [msgs cur]. destruct (blank line) eqn:B.
  - rewrite turn_blank in T by assumption. now inversion T; subst.
  - destruct (_match_message line) as [[[t a] b]|] eqn:M.
    + rewrite (turn_header _ _ _ M) in T.
      destruct (_parse_datetime t) as [d|] eqn:P; simpl in T; [|discriminate].
      inversion T; subst. simpl in *. apply Forall_app. split; [assumption|].
      constructor; [|constructor].
      exists line, t, a, b, []. unfold opened_from. simpl.
      rewrite app_nil_r. repeat split; auto.
    + destruct cur as [m|].
      * rewrite turn_continuation in T by assumption. inversion T; subst.
        simpl in *. apply Forall_app in Inv. destruct Inv as [Inv Hm].
        apply Forall_app. split; [assumption|]. constructor; [|constructor].
        inversion Hm as [|? ? Hm' _]; subst.
        destruct Hm' as (l0 & t & a & b & conts & H1 & H2 & H3 & H4 & H5 & H6 & H7 & H8).
        exists l0, t, a, b, (conts ++ [line]). unfold opened_from. simpl.
        repeat split; auto.
        -- apply Forall_app. split; [assumption|]. constructor; auto.
        -- rewrite H8, flat_map_app. simpl. now rewrite app_nil_r, app_assoc.
      * rewrite turn_garbage in T by assumption. now inversion T; subst.
Qed.

Lemma for_lines_assembled (L lines : list str) :
  incl lines L -> forall st st',
  for_lines lines st = Ok st' ->
  Forall (assembled L) (seal (fst st) (snd st)) ->
  Forall (assembled L) (seal (fst st') (snd st')).
Proof.
  induction lines as [|l lines IH]; simpl; intros HL st st' H Inv.
  - now inversion H; subst.
  - destruct (turn st l) as [st1|] eqn:T; simpl in H; [|discriminate].
    apply (IH (fun x Hx => HL x (or_intror Hx)) st1 st' H).
    eapply turn_assembled; eauto. apply HL. now left.
Qed.

Lemma parse_content_assembled (content : str) (msgs : list msg) :
  _parse_content content = Ok msgs ->
  Forall (assembled (split newline content)) msgs.
Proof.
  unfold _parse_content.
  destruct (for_lines (split newline content) ([], None)) as [st|] eqn:F;
    simpl; [|discriminate].
  intros H. inversion H; subst.
  eapply for_lines_assembled; eauto using incl_refl.
Qed.

(* ================================================================== *)
(** ** Loading a file *)

Lemma load_chat_reads (self : parser) (fs : filesystem)
    (path_arg : option str) (path content : str) :
  or_else path_arg (file_path self) = Some path -> path <> [] ->
  fs path = Some content ->
  load_chat self fs path_arg =
  match _parse_content content with
  | Raise e => (Raise e, self)
  | Ok msgs =>
      let table := if empty msgs then msgs else sort_values msgs in
      (Ok table,
       {| file_path := file_path self; messages := msgs; df := Some table |})
  end.
Proof.
  intros H1 H2 H3. unfold load_chat. rewrite H1.
  destruct path as [|c path]; [congruence|]. now rewrite H3.
Qed.

(** C3.  Whenever some line of the file is a header (a grammar matches it)
    whose captured timestamp is in none of the known formats, [load_chat]
    raises the timestamp error ([ValueError: Could not parse datetime]) and
    the parser object is left as it was: neither [messages] nor [df] is
    assigned, so no partial table exists. *)
Theorem unparsable_timestamp_aborts_load (self : parser) (fs : filesystem)
    (path_arg : option str) (path content line t a b : str) :
  or_else path_arg (file_path self) = Some path -> path <> [] ->
  fs path = Some content ->
  In line (split newline content) ->
  _match_message line = Some (t, a, b) ->
  try_formats formats t = None ->
  exists e, timestamp_error e /\
            _parse_content content = Raise e /\
            load_chat self fs path_arg = (Raise e, self).
Proof.
  intros H1 H2 H3 HIn M F.
  destruct (for_lines_bad_timestamp _ _ HIn M F ([], None)) as (e & Hf & He).
  exists e. split; [assumption|].
  assert (P : _parse_content content = Raise e).
  { unfold _parse_content. now rewrite Hf. }
  split; [assumption|]. rewrite (load_chat_reads _ _ _ H1 H2 H3). now rewrite P.
Qed.

(** C8.  A file that exists and holds no header line (every line is blank or
    matches no grammar; the empty file is one such) loads into the empty
    table without an exception, and the summary of the parser is then the
    empty dict. *)
Theorem no_header_loads_empty_table (self : parser) (fs : filesystem)
    (path_arg : option str) (path content : str) :
  or_else path_arg (file_path self) = Some path -> path <> [] ->
  fs path = Some content ->
  Forall (fun l => blank l = true \/ _match_message l = None)
         (split newline content) ->
  load_chat self fs path_arg =
    (Ok [], {| file_path := file_path self; messages := []; df := Some [] |}) /\
  get_chat_info (snd (load_chat self fs path_arg)) = [].
Proof.
  intros H1 H2 H3 HF.
  assert (P : _parse_content content = Ok []).
  { unfold _parse_content. now rewrite (for_lines_no_header [] HF). }
  rewrite (load_chat_reads _ _ _ H1 H2 H3), P. split; reflexivity.
Qed.

(** C10.  The system check never looks at the author. *)
Theorem is_system_message_ignores_author (a1 a2 body : str) :
  _is_system_message a1 body = _is_system_message a2 body.
Proof. reflexivity. Qed.

(** C7.  The Android line of scenario 1 parses to exactly one message, from
    Alice, with the body as written and both flags false; loading a file
    made of that line returns that one-row table. *)
Theorem scenario_android_line :
  let alice :=
    {| datetime := Strptime.mkdt 2023 12 25 10 30 0;
       author := s "Alice";
       message := s "Hey! Merry Christmas!";
       is_media := false;
       is_system := false |} in
  _parse_content (s "12/25/2023, 10:30 AM - Alice: Hey! Merry Christmas!")
    = Ok [alice] /\
  fst (load_chat (__init__ None)
         (one_file "chat.txt"
            "12/25/2023, 10:30 AM - Alice: Hey! Merry Christmas!")
         (Some (s "chat.txt")))
    = Ok [alice].
Proof. split; vm_compute; reflexivity. Qed.

(** C2.  The iOS line of scenario 2 is recognised by the bracketed grammar,
    but its timestamp (month first, with seconds) is in none of the formats
    of [_parse_datetime]: the two formats with seconds are day-first only.
    The parse raises; the month-first format with seconds, which the list
    lacks, would have read it. *)
Theorem scenario_ios_line_raises :
  let line := s "[12/25/2023, 10:30:00 AM] Alice: Hey! Merry Christmas!" in
  let stamp := s "12/25/2023, 10:30:00 AM" in
  _match_message line = Some (stamp, s "Alice", s "Hey! Merry Christmas!") /\
  _parse_datetime stamp =
    Raise (ValueError (s "Could not parse datetime: 12/25/2023, 10:30:00 AM")) /\
  _parse_content line =
    Raise (ValueError (s "Could not parse datetime: 12/25/2023, 10:30:00 AM")) /\
  Strptime.strptime stamp (s "%m/%d/%Y, %I:%M:%S %p")
    = Some (Strptime.mkdt 2023 12 25 10 30 0) /\
  existsb (Strptime.str_eqb (s "%m/%d/%Y, %I:%M:%S %p")) formats = false.
Proof. repeat split; vm_compute; reflexivity. Qed.

Lemma unparsable_timestamp_aborts_load_witness :
  let self := __init__ None in
  let fs := one_file "chat.txt" "1/2/2023, 10:30 AM - Alice: hi
99/99/9999, 99:99 - Bob: lost
3/2/2023, 10:31 AM - Alice: never read" in
  exists e, timestamp_error e /\
            _parse_content (s "1/2/2023, 10:30 AM - Alice: hi
99/99/9999, 99:99 - Bob: lost
3/2/2023, 10:31 AM - Alice: never read") = Raise e /\
            load_chat self fs (Some (s "chat.txt")) = (Raise e, self).
Proof.
  apply (@unparsable_timestamp_aborts_load (__init__ None) _
           (Some (s "chat.txt")) (s "chat.txt") _
           (s "99/99/9999, 99:99 - Bob: lost")
           (s "99/99/9999, 99:99") (s "Bob") (s "lost")).
  - reflexivity.
  - discriminate.
  - reflexivity.
  - vm_compute. right. left. reflexivity.
  - vm_compute. reflexivity.
  - vm_compute. reflexivity.
Defined.

Lemma no_header_loads_empty_table_witness :
  let self := __init__ (Some (s "chat.txt")) in
  let fs := one_file "chat.txt" "
   
no header here" in
  load_chat self fs None =
    (Ok [], {| file_path := file_path self; messages := []; df := Some [] |}) /\
  get_chat_info (snd (load_chat self fs None)) = [].
Proof.
  apply (@no_header_loads_empty_table (__init__ (Some (s "chat.txt"))) _
           None (s "chat.txt") (s "
   
no header here")).
  - reflexivity.
  - discriminate.
  - reflexivity.
  - vm_compute.
    repeat (constructor; [first [left; reflexivity | right; reflexivity]|]).
    constructor.
Defined.

(* ================================================================== *)
(** ** The order of the table *)

Lemma lex_leb_total (a : list Z) :
  forall b, List.length a = List.length b ->
            Strptime.lex_leb a b = false -> Strptime.lex_leb b a = true.
Proof.
  induction a as [|x a IH]; intros [|y b] L; simpl; try discriminate; intros H.
  rewrite (Z.compare_antisym x y). destruct (Z.compare_spec x y); simpl;
    try reflexivity; try discriminate.
  apply IH; [now inversion L | assumption].
Qed.

Lemma lex_leb_trans (a : list Z) :
  forall b c, Strptime.lex_leb a b = true -> Strptime.lex_leb b c = true ->
              Strptime.lex_leb a c = true.
Proof.
  induction a as [|x a IH]; intros [|y b] [|z c]; simpl; try congruence.
  destruct (Z.compare_spec x y), (Z.compare_spec y z), (Z.compare_spec x z);
    try congruence; try lia; subst; eauto.
Qed.

Lemma not_after_total (a b : msg) : ~ not_after a b -> not_after b a.
Proof.
  unfold not_after, Strptime.leb. intros H. apply lex_leb_total; [reflexivity|].
  now destruct (Strptime.lex_leb (Strptime.fields (datetime a))
                                 (Strptime.fields (datetime b))).
Qed.

Lemma not_after_trans (a b c : msg) :
  not_after a b -> not_after b c -> not_after a c.
Proof. unfold not_after, Strptime.leb. apply lex_leb_trans. Qed.

Lemma insert_row_perm (m : msg) (rows : DataFrame) :
  Permutation (m :: rows) (insert_row m rows).
Proof.
  induction rows as [|r rows IH]; simpl; [reflexivity|].
  destruct (Strptime.leb (datetime m) (datetime r)); [reflexivity|].
  rewrite perm_swap. now constructor.
Qed.

Lemma insert_row_sorted (m : msg) (rows : DataFrame) :
  StronglySorted not_after rows -> StronglySorted not_after (insert_row m rows).
Proof.
  induction 1 as [|r rows S IH F]; simpl.
  - repeat constructor.
  - destruct (Strptime.leb (datetime m) (datetime r)) eqn:E.
    + constructor; [now constructor|]. constructor; [exact E|].
      eapply Forall_impl; [|exact F]. intros c Hc.
      eapply not_after_trans; [exact E | exact Hc].
    + constructor; [exact IH|].
      eapply Permutation_Forall; [apply insert_row_perm|].
      constructor; [|exact F]. apply not_after_total.
      unfold not_after. congruence.
Qed.

Lemma sort_values_sorted (rows : DataFrame) :
  StronglySorted not_after (sort_values rows).
Proof.
  induction rows as [|r rows IH]; simpl; [constructor|].
  now apply insert_row_sorted.
Qed.

Lemma sort_values_perm (rows : DataFrame) : Permutation rows (sort_values rows).
Proof.
  induction rows as [|r rows IH]; simpl; [constructor|].
  rewrite <- insert_row_perm. now constructor.
Qed.

(** C4.  Whatever table [load_chat] returns is in non-decreasing order of
    timestamp: every row is not after any row that follows it.  The table is
    the parser's [df], and holds the assembled messages (the parser's
    [messages], in parse order) and nothing else. *)
Theorem load_chat_table_sorted (self self' : parser) (fs : filesystem)
    (path_arg : option str) (table : DataFrame) :
  load_chat self fs path_arg = (Ok table, self') ->
  StronglySorted not_after table /\
  df self' = Some table /\
  Permutation (messages self') table.
Proof.
  unfold load_chat.
  destruct (or_else path_arg (file_path self)) as [[|c path]|];
    try discriminate.
  destruct (fs (c :: path)) as [content|]; try discriminate.
  destruct (_parse_content content) as [msgs|]; try discriminate.
  intros H. inversion H; subst; clear H. simpl.
  destruct msgs as [|m msgs]; simpl.
  - repeat split; constructor.
  - repeat split.
    + apply (sort_values_sorted (m :: msgs)).
    + apply (sort_values_perm (m :: msgs)).
Qed.

Lemma load_chat_table_sorted_witness :
  let fs := one_file "chat.txt" "12/26/2023, 9:15 AM - Bob: second
12/25/2023, 10:30 PM - Alice: first
12/25/2023, 10:30 PM - Carol: also first" in
  let r := load_chat (__init__ None) fs (Some (s "chat.txt")) in
  let table := match fst r with Ok rows => rows | Raise _ => [] end in
  map author table = [s "Alice"; s "Carol"; s "Bob"] /\
  StronglySorted not_after table /\
  df (snd r) = Some table /\
  Permutation (messages (snd r)) table.
Proof.
  cbv zeta. split; [vm_compute; reflexivity|].
  apply (@load_chat_table_sorted (__init__ None) _
           (one_file "chat.txt" "12/26/2023, 9:15 AM - Bob: second
12/25/2023, 10:30 PM - Alice: first
12/25/2023, 10:30 PM - Carol: also first") (Some (s "chat.txt"))).
  vm_compute. reflexivity.
Defined.

(* ================================================================== *)
(** ** Lines in, messages out *)

Lemma split_app_newline (l x : str) :
  one_line l = true -> split newline (l ++ newline :: x) = l :: split newline x.
Proof.
  unfold one_line. induction l as [|c l IH]; simpl; intros H.
  - reflexivity.
  - apply andb_true_iff in H. destruct H as [Hc Hl].
    unfold is_dot in Hc. apply negb_true_iff in Hc. rewrite Hc.
    now rewrite (IH Hl).
Qed.

Lemma split_one_line (l : str) : one_line l = true -> split newline l = [l].
Proof.
  unfold one_line. induction l as [|c l IH]; simpl; intros H; [reflexivity|].
  apply andb_true_iff in H. destruct H as [Hc Hl].
  unfold is_dot in Hc. apply negb_true_iff in Hc. rewrite Hc.
  now rewrite (IH Hl).
Qed.

Lemma split_join (ls : list str) :
  ls <> [] -> Forall (fun l => one_line l = true) ls ->
  split newline (join newline ls) = ls.
Proof.
  intros N F. induction F as [|l ls Hl F IH]; [congruence|].
  destruct ls as [|l2 ls].
  - simpl. now apply split_one_line.
  - change (join newline (l :: l2 :: ls))
      with (l ++ newline :: join newline (l2 :: ls)).
    rewrite split_app_newline by assumption. f_equal. apply IH. discriminate.
Qed.

Lemma join_continuations (x : str) (cs : list str) :
  join newline (x :: map strip cs) =
  x ++ flat_map (fun c => newline :: strip c) cs.
Proof.
  revert x. induction cs as [|c cs IH]; intros x.
  - simpl. now rewrite app_nil_r.
  - cbn [map flat_map app].
    change (join newline (x :: strip c :: map strip cs))
      with (x ++ newline :: join newline (strip c :: map strip cs)).
    now rewrite IH.
Qed.

Lemma for_lines_continuations (cs : list str) :
  Forall (fun c => is_continuation c = true) cs ->
  forall msgs m,
    for_lines cs (msgs, Some m) = Ok (msgs, Some (with_continuations m cs)).
Proof.
  induction 1 as [|c cs Hc _ IH]; intros msgs m.
  - simpl. unfold with_continuations. simpl. rewrite app_nil_r. now destruct m.
  - unfold is_continuation in Hc.
    apply andb_true_iff in Hc. destruct Hc as [Hc M].
    apply andb_true_iff in Hc. destruct Hc as [_ B].
    apply negb_true_iff in B.
    destruct (_match_message c) eqn:E; [discriminate|].
    cbn [for_lines]. rewrite turn_continuation by assumption. cbn [bind].
    rewrite IH. unfold with_continuations. simpl.
    now rewrite <- app_assoc.
Qed.

Lemma for_lines_block (b : block) :
  well_formed b = true ->
  exists m, message_of b = Some m /\ message m = trimmed_body_of b /\
    forall msgs cur,
      for_lines (fst b :: snd b) (msgs, cur) = Ok (seal msgs cur, Some m).
Proof.
  destruct b as [h cs]. unfold well_formed, is_parsable_header, message_of, trimmed_body_of.
  cbn [fst snd]. intros W.
  apply andb_true_iff in W. destruct W as [W C].
  apply andb_true_iff in W. destruct W as [_ W].
  destruct (_match_message h) as [[[t a] body]|] eqn:M; [|discriminate W].
  destruct (try_formats formats t) as [d|] eqn:F; [|discriminate W].
  eexists. split; [reflexivity|]. split; [reflexivity|].
  intros msgs cur. cbn [for_lines]. erewrite turn_header by eassumption.
  unfold _parse_datetime. rewrite F. cbn [bind].
  rewrite for_lines_continuations
    by (apply Forall_forall; apply (proj1 (forallb_forall _ _) C)).
  unfold with_continuations. cbn [datetime author message is_media is_system].
  now rewrite join_continuations.
Qed.

Lemma for_lines_blocks (bs : list block) :
  Forall (fun b => well_formed b = true) bs ->
  exists ms, map message_of bs = map Some ms /\
             map message ms = map trimmed_body_of bs /\
    forall msgs cur, exists st,
      for_lines (lines_of bs) (msgs, cur) = Ok st /\
      seal (fst st) (snd st) = seal msgs cur ++ ms.
Proof.
  induction 1 as [|b bs Hb _ IH].
  - exists []. repeat split. intros msgs cur. exists (msgs, cur).
    simpl. now rewrite app_nil_r.
  - destruct (for_lines_block _ Hb) as (m & Hm & Hbody & Hrun).
    destruct IH as (ms & Hms & Hbodies & Hruns).
    exists (m :: ms). cbn [map]. rewrite Hm, Hms, Hbody, Hbodies.
    repeat split. intros msgs cur.
    change (lines_of (b :: bs)) with ((fst b :: snd b) ++ lines_of bs).
    rewrite for_lines_app, Hrun. cbn [bind].
    destruct (Hruns (seal msgs cur) (Some m)) as (st & Hst & Hseal).
    exists st. split; [assumption|]. rewrite Hseal. cbn [seal].
    now rewrite <- app_assoc.
Qed.

Lemma well_formed_one_line (bs : list block) :
  Forall (fun b => well_formed b = true) bs ->
  Forall (fun l => one_line l = true) (lines_of bs).
Proof.
  induction 1 as [|[h cs] bs Hb _ IH]; simpl; [constructor|].
  unfold well_formed, is_parsable_header in Hb. simpl in Hb.
  apply andb_true_iff in Hb. destruct Hb as [Hh Hc].
  apply andb_true_iff in Hh. destruct Hh as [Hh _].
  constructor; [assumption|]. apply Forall_app. split; [|assumption].
  apply Forall_forall. intros c Hin.
  apply (proj1 (forallb_forall _ _) Hc) in Hin. unfold is_continuation in Hin.
  apply andb_true_iff in Hin. destruct Hin as [Hin _].
  apply andb_true_iff in Hin. tauto.
Qed.

(** C5, as the code has it: the counterexample.  The body of a message is
    not the captured body as it is: [_parse_content] trims it.  The header
    below is read through by the code (a grammar matches, the timestamp
    parses), its captured body is ["  hi  "], and the sealed body is
    ["hi"]. *)
Lemma captured_body_is_trimmed :
  ~ (forall bs,
       Forall (fun b => well_formed b = true) bs ->
       exists msgs,
         _parse_content (join newline (lines_of bs)) = Ok msgs /\
         List.length msgs = List.length bs /\
         map message msgs = map captured_body_of bs).
Proof.
  intros H.
  destruct (H [(s "1/2/2023, 10:30 AM - Alice:   hi  ", [])])
    as (msgs & P & _ & B).
  - repeat constructor.
  - vm_compute in P. inversion P; subst msgs. vm_compute in B. discriminate B.
Qed.

(** C5, amended.  N header lines that a grammar matches and whose timestamp
    is in one of the known formats, each followed by any number of
    continuation lines (not blank, matched by no grammar), assemble into
    exactly N messages, in order, the i-th being the message opened by the
    i-th header with body the header's captured body, trimmed, newline-joined
    with the trimmed continuation lines.  With no continuation lines at all,
    two consecutive such headers (of one author or not) therefore give two
    messages.  Nothing is said here of a header whose timestamp is in no
    known format. *)
Theorem assembler_round_trip (bs : list block) :
  Forall (fun b => well_formed b = true) bs ->
  exists msgs,
    _parse_content (join newline (lines_of bs)) = Ok msgs /\
    List.length msgs = List.length bs /\
    map message msgs = map trimmed_body_of bs /\
    map Some msgs = map message_of bs.
Proof.
  intros W. destruct (for_lines_blocks W) as (ms & Hms & Hbodies & Hruns).
  exists ms. split; [|split; [|split]]; auto.
  - destruct bs as [|b bs].
    + destruct ms; [reflexivity | discriminate].
    + unfold _parse_content. rewrite split_join.
      * destruct (Hruns [] None) as (st & -> & Hseal). cbn [bind].
        now rewrite Hseal.
      * destruct b. discriminate.
      * now apply well_formed_one_line.
  - rewrite <- (length_map message), Hbodies. apply length_map.
Qed.

Lemma assembler_round_trip_witness :
  let bs := [(s "12/25/2023, 10:30 AM - Alice: one", []);
             (s "12/25/2023, 10:30 AM - Alice: two", [s "  and a half "; s "more"]);
             (s "[25/12/2023, 10:31:05 PM] Bob:  three", [])] in
  exists msgs,
    _parse_content (join newline (lines_of bs)) = Ok msgs /\
    List.length msgs = List.length bs /\
    map message msgs = map trimmed_body_of bs /\
    map Some msgs = map message_of bs.
Proof.
  apply assembler_round_trip. repeat constructor.
Defined.

(* ================================================================== *)
(** ** Trimming and the keyword search *)

Lemma is_space_lower (c : ascii) : is_space (lower_char c) = is_space c.
Proof. destruct c as [[] [] [] [] [] [] [] []]; reflexivity. Qed.

Lemma lstrip_lower (x : str) : lstrip (lower x) = lower (lstrip x).
Proof.
  induction x as [|c x IH]; simpl; [reflexivity|].
  rewrite is_space_lower. now destruct (is_space c).
Qed.

Lemma lower_rev (x : str) : lower (rev x) = rev (lower x).
Proof. apply map_rev. Qed.

Lemma strip_lower (x : str) : strip (lower x) = lower (strip x).
Proof.
  unfold strip, rstrip.
  now rewrite lstrip_lower, <- lower_rev, lstrip_lower, <- lower_rev.
Qed.

Lemma startswith_iff (sub x : str) :
  startswith sub x = true <-> exists q, x = sub ++ q.
Proof.
  revert x. induction sub as [|a sub IH]; intros x; simpl.
  - split; eauto.
  - destruct x as [|b x].
    + split; [discriminate | intros [q H]; discriminate].
    + rewrite andb_true_iff, Ascii.eqb_eq, IH. split.
      * intros [-> [q ->]]. now exists q.
      * intros [q H]. inversion H; subst. eauto.
Qed.

Lemma contains_iff (sub x : str) :
  contains sub x = true <-> exists p q, x = p ++ sub ++ q.
Proof.
  induction x as [|c x IH]; simpl.
  - rewrite orb_false_r, startswith_iff. split.
    + intros [q H]. now exists [], q.
    + intros (p & q & H). destruct p; simpl in H.
      * now exists q.
      * discriminate.
  - rewrite orb_true_iff, startswith_iff, IH. split.
    + intros [[q H]|(p & q & H)].
      * now exists [], q.
      * exists (c :: p), q. simpl. now rewrite H.
    + intros (p & q & H). destruct p as [|c' p]; simpl in H.
      * left. now exists q.
      * right. inversion H; subst. now exists p, q.
Qed.

Lemma contains_rev (sub x : str) :
  contains (rev sub) (rev x) = contains sub x.
Proof.
  apply eq_true_iff_eq. rewrite !contains_iff. split.
  - intros (p & q & H). exists (rev q), (rev p).
    apply (f_equal (@rev ascii)) in H.
    rewrite rev_involutive, !rev_app_distr, rev_involutive in H.
    now rewrite H, app_assoc.
  - intros (p & q & ->). exists (rev q), (rev p).
    now rewrite !rev_app_distr, app_assoc.
Qed.

Lemma contains_lstrip (c : ascii) (sub x : str) :
  is_space c = false ->
  contains (c :: sub) (lstrip x) = contains (c :: sub) x.
Proof.
  intros Hc. induction x as [|d x IH]; [reflexivity|].
  cbn [lstrip]. destruct (is_space d) eqn:Hd; [|reflexivity].
  rewrite IH. cbn [contains startswith].
  destruct (Ascii.eqb_spec c d) as [->|]; [congruence | reflexivity].
Qed.

Lemma contains_strip (i x : str) :
  trimmed i = true -> contains i (strip x) = contains i x.
Proof.
  unfold trimmed. destruct i as [|c i]; [discriminate|].
  destruct (rev (c :: i)) as [|d j] eqn:R; [discriminate|].
  intros H. apply andb_true_iff in H. destruct H as [Hc Hd].
  apply negb_true_iff in Hc, Hd.
  unfold strip, rstrip.
  rewrite <- (contains_rev (c :: i)), rev_involutive, R.
  rewrite contains_lstrip by assumption.
  rewrite <- R, contains_rev.
  now apply contains_lstrip.
Qed.

Lemma any_indicator_strip (indicators : list str) (x : str) :
  forallb (fun i => trimmed (lower i)) indicators = true ->
  any_indicator indicators (strip x) = any_indicator indicators x.
Proof.
  unfold any_indicator. induction indicators as [|i rest IH]; simpl;
    [reflexivity|].
  intros H. apply andb_true_iff in H. destruct H as [Hi Hrest].
  rewrite (IH Hrest). now rewrite <- strip_lower, contains_strip by assumption.
Qed.

Lemma is_media_message_strip (x : str) :
  _is_media_message (strip x) = _is_media_message x.
Proof. apply any_indicator_strip. vm_compute. reflexivity. Qed.

Lemma is_system_message_strip (a a' x : str) :
  _is_system_message a (strip x) = _is_system_message a' x.
Proof. apply any_indicator_strip. vm_compute. reflexivity. Qed.

Lemma forallb_lstrip (p : ascii -> bool) (x : str) :
  forallb p x = true -> forallb p (lstrip x) = true.
Proof.
  induction x as [|c x IH]; simpl; [reflexivity|]. intros H.
  destruct (is_space c); [|exact H].
  apply andb_true_iff in H. now apply IH.
Qed.

Lemma forallb_rev (p : ascii -> bool) (x : str) :
  forallb p (rev x) = forallb p x.
Proof.
  induction x as [|c x IH]; simpl; [reflexivity|].
  rewrite forallb_app, IH. simpl. rewrite andb_true_r. apply andb_comm.
Qed.

Lemma one_line_strip (x : str) : one_line x = true -> one_line (strip x) = true.
Proof.
  unfold one_line, strip, rstrip. intros H.
  rewrite forallb_rev. apply forallb_lstrip. rewrite forallb_rev.
  now apply forallb_lstrip.
Qed.

Lemma first_line_continuations (x : str) (conts : list str) :
  one_line x = true ->
  first_line (x ++ flat_map (fun c => newline :: strip c) conts) = x.
Proof.
  unfold one_line. induction x as [|c x IH]; simpl; intros H.
  - now destruct conts.
  - apply andb_true_iff in H. destruct H as [Hc Hx].
    now rewrite Hc, (IH Hx).
Qed.

(* ================================================================== *)
(** ** The flags and the body of an assembled message *)

Lemma parse_content_opened_from (content : str) (msgs : list msg) (m : msg) :
  _parse_content content = Ok msgs -> In m msgs ->
  exists line t a b conts,
    opened_from (split newline content) m line t a b conts /\
    b <> [] /\ one_line b = true.
Proof.
  intros P HIn. apply parse_content_assembled in P.
  apply (proj1 (Forall_forall _ _) P) in HIn.
  destruct HIn as (line & t & a & b & conts & H).
  exists line, t, a, b, conts. split; [exact H|].
  destruct H as (_ & M & _). apply match_message_shape in M. tauto.
Qed.

Lemma has_nonspace_app (x y : str) :
  has_nonspace (x ++ y) = has_nonspace x || has_nonspace y.
Proof. apply existsb_app. Qed.

Lemma continuations_visible (c : str) (conts : list str) :
  blank c = false ->
  has_nonspace (flat_map (fun c => newline :: strip c) (c :: conts)) = true.
Proof.
  intros B. rewrite blank_has_nonspace in B. apply negb_false_iff in B.
  cbn [flat_map]. change ((newline :: strip c) ++ ?r) with (newline :: strip c ++ r).
  change (has_nonspace (newline :: ?r))
    with (negb (is_space newline) || has_nonspace r).
  now rewrite has_nonspace_app, strip_has_nonspace, B, orb_true_r.
Qed.

(** C1, as the code has it: the counterexample.  A media file named on a
    continuation line is part of the sealed body, and the flag, set when the
    header line was read, stays false. *)
Lemma flags_miss_continuation_lines :
  ~ (forall content msgs m,
       _parse_content content = Ok msgs -> In m msgs ->
       is_media m = _is_media_message (message m) /\
       is_system m = _is_system_message (author m) (message m)).
Proof.
  intros H.
  pose (m := {| datetime := Strptime.mkdt 2023 12 25 10 30 0;
                author := s "Alice";
                message := s "see this
photo.jpg";
                is_media := false;
                is_system := false |}).
  assert (P : _parse_content (s "12/25/2023, 10:30 AM - Alice: see this
photo.jpg") = Ok [m]) by (vm_compute; reflexivity).
  destruct (H _ _ m P (or_introl eq_refl)) as [Hm _].
  vm_compute in Hm. discriminate Hm.
Qed.

(** C1, amended.  For every assembled message, [is_media] and [is_system]
    are the keyword heuristics applied to the first line of the sealed body,
    which is the trimmed body captured on the header line; trimming does not
    change the heuristics, and the continuation lines appended afterwards
    have no part in the flags. *)
Theorem flags_follow_header_body (content : str) (msgs : list msg) (m : msg) :
  _parse_content content = Ok msgs -> In m msgs ->
  is_media m = _is_media_message (first_line (message m)) /\
  is_system m = _is_system_message (author m) (first_line (message m)) /\
  exists line t a b conts,
    opened_from (split newline content) m line t a b conts /\
    first_line (message m) = strip b /\
    is_media m = _is_media_message b /\
    is_system m = _is_system_message a b.
Proof.
  intros P HIn.
  destruct (@parse_content_opened_from content msgs m P HIn)
    as (line & t & a & b & conts & O & _ & L).
  pose proof O as (_ & _ & _ & _ & Hmedia & Hsystem & _ & Hbody).
  assert (F : first_line (message m) = strip b).
  { rewrite Hbody. apply first_line_continuations. now apply one_line_strip. }
  rewrite F, is_media_message_strip, (is_system_message_strip (author m) a).
  repeat split; auto. exists line, t, a, b, conts. auto.
Qed.

Lemma flags_follow_header_body_witness :
  let content := s "12/25/2023, 10:30 AM - Alice:  Bob left the FILE.PDF  
photo.jpg" in
  let msgs := match _parse_content content with Ok l => l | Raise _ => [] end in
  let m := hd {| datetime := Strptime.mkdt 0 0 0 0 0 0; author := [];
                 message := []; is_media := false; is_system := false |} msgs in
  (message m = s "Bob left the FILE.PDF
photo.jpg" /\ is_media m = true /\ is_system m = true) /\
  is_media m = _is_media_message (first_line (message m)) /\
  is_system m = _is_system_message (author m) (first_line (message m)) /\
  exists line t a b conts,
    opened_from (split newline content) m line t a b conts /\
    first_line (message m) = strip b /\
    is_media m = _is_media_message b /\
    is_system m = _is_system_message a b.
Proof.
  cbv zeta. split; [vm_compute; auto|].
  eapply flags_follow_header_body.
  - vm_compute. reflexivity.
  - vm_compute. left. reflexivity.
Defined.

(** C9, as the code has it: the counterexample.  The grammar asks for one
    character after the colon and the blank; when that character is a blank
    the trimmed body is empty, and the message is sealed with it. *)
Lemma blank_body_is_sealed :
  ~ (forall content msgs m,
       _parse_content content = Ok msgs -> In m msgs ->
       has_nonspace (message m) = true).
Proof.
  intros H.
  pose (m := {| datetime := Strptime.mkdt 2023 12 25 10 30 0;
                author := s "Alice";
                message := [];
                is_media := false;
                is_system := false |}).
  assert (P : _parse_content (s "12/25/2023, 10:30 AM - Alice:  ") = Ok [m])
    by (vm_compute; reflexivity).
  specialize (H _ _ m P (or_introl eq_refl)). discriminate H.
Qed.

(** C9, amended.  The body captured on a header line has at least one
    character, which may be a blank.  A sealed body is never made of blanks
    only: it is empty, exactly when the captured body is all blanks and no
    continuation line followed, and otherwise it holds a character that is
    not a blank. *)
Theorem sealed_body_empty_or_visible (content : str) (msgs : list msg)
    (m : msg) :
  _parse_content content = Ok msgs -> In m msgs ->
  exists line t a b conts,
    opened_from (split newline content) m line t a b conts /\
    b <> [] /\
    (has_nonspace b = true \/ conts <> [] -> has_nonspace (message m) = true) /\
    (has_nonspace b = false /\ conts = [] -> message m = []).
Proof.
  intros P HIn.
  destruct (@parse_content_opened_from content msgs m P HIn)
    as (line & t & a & b & conts & O & N & _).
  exists line, t, a, b, conts. split; [exact O|]. split; [exact N|].
  destruct O as (_ & _ & _ & _ & _ & _ & C & ->). split.
  - rewrite has_nonspace_app, strip_has_nonspace. intros [->|Hc]; [reflexivity|].
    destruct conts as [|c conts]; [congruence|].
    inversion C as [|? ? (_ & B & _) _]; subst.
    rewrite (@continuations_visible c conts B). apply orb_true_r.
  - intros [Hb ->]. simpl. rewrite app_nil_r. now apply strip_nil.
Qed.

Lemma sealed_body_empty_or_visible_witness :
  let content := s "12/25/2023, 10:30 AM - Alice:   
 kept 
12/25/2023, 10:31 AM - Bob:  " in
  let msgs := match _parse_content content with Ok l => l | Raise _ => [] end in
  let m := hd {| datetime := Strptime.mkdt 0 0 0 0 0 0; author := [];
                 message := []; is_media := false; is_system := false |} msgs in
  map message msgs = [s "
kept"; []] /\
  exists line t a b conts,
    opened_from (split newline content) m line t a b conts /\
    b <> [] /\
    (has_nonspace b = true \/ conts <> [] -> has_nonspace (message m) = true) /\
    (has_nonspace b = false /\ conts = [] -> message m = []).
Proof.
  cbv zeta. split; [vm_compute; reflexivity|].
  eapply sealed_body_empty_or_visible.
  - vm_compute. reflexivity.
  - vm_compute. left. reflexivity.
Defined.

(* ================================================================== *)
(** ** Which grammar reads a line *)

Lemma bracket_not_digit : is_digit "["%char = false.
Proof. reflexivity. Qed.

Lemma bracketed_excludes (p : grammar) (line : str) :
  matches IOS_PATTERN line = true -> p <> IOS_PATTERN ->
  matches p line = false.
Proof.
  intros HI Hp. destruct (matches p line) eqn:E; [|reflexivity].
  apply matches_first_char in HI. apply matches_first_char in E.
  destruct HI as (c & tl & -> & Hc). destruct E as (c' & tl' & E & Hc').
  inversion E; subst c' tl'. simpl in Hc. subst c.
  destruct p; simpl in Hc'; try congruence; now rewrite bracket_not_digit in Hc'.
Qed.

Lemma first_match_head (p : grammar) (ps : list grammar) (line : str) :
  matches p line = true ->
  exists g, first_match (p :: ps) line = Some (p, g).
Proof.
  unfold matches. simpl.
  destruct (re_match (regex_of p) line) as [[g rest]|]; [|discriminate].
  intros _. now exists (groups g).
Qed.

Lemma first_match_skip (p : grammar) (ps : list grammar) (line : str) :
  matches p line = false ->
  first_match (p :: ps) line = first_match ps line.
Proof.
  unfold matches. simpl.
  destruct (re_match (regex_of p) line) as [[g rest]|]; [discriminate|].
  reflexivity.
Qed.

(** C6, as the code has it: the counterexample.  The list of
    [_match_message] starts with the unbracketed AM/PM grammar; the bracketed
    grammar is second, so it has no priority over that one. *)
Lemma bracketed_grammar_is_second :
  ~ ((forall line,
        matches IOS_PATTERN line = true ->
        matches ANDROID_PATTERN line = true \/
        matches ALTERNATIVE_PATTERN line = true ->
        exists g, first_match patterns line = Some (IOS_PATTERN, g)) /\
     has_priority IOS_PATTERN ANDROID_PATTERN = true /\
     has_priority IOS_PATTERN ALTERNATIVE_PATTERN = true /\
     has_priority ANDROID_PATTERN ALTERNATIVE_PATTERN = true).
Proof. intros (_ & H & _). vm_compute in H. discriminate H. Qed.

(** C6, amended.  No line matches both the bracketed grammar and an
    unbracketed one (the first begins with a bracket, the others with a
    digit), so a line that matches the bracketed grammar is always parsed by
    it.  In the list the unbracketed AM/PM grammar comes first, the bracketed
    second and the loose unbracketed last: the strict-time grammar has
    priority over the loose one, and a line that matches it is parsed by
    it. *)
Theorem bracketed_line_parsed_as_bracketed (line : str) :
  matches IOS_PATTERN line = true ->
  (matches ANDROID_PATTERN line = false /\
   matches ALTERNATIVE_PATTERN line = false) /\
  (exists g, first_match patterns line = Some (IOS_PATTERN, g)) /\
  (has_priority ANDROID_PATTERN IOS_PATTERN = true /\
   has_priority IOS_PATTERN ALTERNATIVE_PATTERN = true /\
   has_priority ANDROID_PATTERN ALTERNATIVE_PATTERN = true) /\
  (forall l, matches ANDROID_PATTERN l = true ->
             exists g, first_match patterns l = Some (ANDROID_PATTERN, g)).
Proof.
  intros H.
  assert (HA : matches ANDROID_PATTERN line = false)
    by (apply bracketed_excludes; [assumption | discriminate]).
  assert (HL : matches ALTERNATIVE_PATTERN line = false)
    by (apply bracketed_excludes; [assumption | discriminate]).
  split; [now split|]. split.
  - unfold patterns. rewrite first_match_skip by assumption.
    now apply first_match_head.
  - split; [repeat split; reflexivity|].
    intros l Hl. now apply first_match_head.
Qed.

Lemma bracketed_line_parsed_as_bracketed_witness :
  let line := s "[25/12/2023, 10:30:00 AM] Alice: 1/2/23, 10:30 AM - Bob: hi" in
  (matches ANDROID_PATTERN line = false /\
   matches ALTERNATIVE_PATTERN line = false) /\
  (exists g, first_match patterns line = Some (IOS_PATTERN, g)) /\
  (has_priority ANDROID_PATTERN IOS_PATTERN = true /\
   has_priority IOS_PATTERN ALTERNATIVE_PATTERN = true /\
   has_priority ANDROID_PATTERN ALTERNATIVE_PATTERN = true) /\
  (forall l, matches ANDROID_PATTERN l = true ->
             exists g, first_match patterns l = Some (ANDROID_PATTERN, g)).
Proof.
  apply bracketed_line_parsed_as_bracketed. vm_compute. reflexivity.
Defined.

(* ================================================================== *)
(** ** The three grammars never overlap *)

Lemma class_run_unique (p : ascii -> bool) (w : str) :
  forall w' c c' r r',
    forallb p w = true -> forallb p w' = true -> p c = false -> p c' = false ->
    w ++ c :: r = w' ++ c' :: r' -> w = w' /\ c = c' /\ r = r'.
Proof.
  induction w as [|a w IH]; intros [|a' w'] c c' r r' Hw Hw' Hc Hc' E;
    simpl in *.
  - inversion E. auto.
  - inversion E; subst. apply andb_true_iff in Hw'. destruct Hw'. congruence.
  - inversion E; subst. apply andb_true_iff in Hw. destruct Hw. congruence.
  - inversion E; subst.
    apply andb_true_iff in Hw, Hw'. destruct Hw, Hw'.
    destruct (IH w' c c' r r') as (-> & -> & ->); auto.
Qed.

Lemma class_one (p : ascii -> bool) (w : str) :
  forallb p w = true -> 1 <= List.length w -> List.length w <= 1 ->
  exists c, w = [c] /\ p c = true.
Proof.
  destruct w as [|c [|d w]]; simpl; intros H L1 L2; try lia.
  exists c. rewrite andb_true_r in H. auto.
Qed.

Ltac singletons :=
  repeat match goal with
         | Hp : forallb ?p ?w = true, L1 : 1 <= List.length ?w,
           L2 : List.length ?w <= 1 |- _ =>
             let c := fresh "c" in let Hc := fresh "Hc" in
             destruct (@class_one p w Hp L1 L2) as (c & -> & Hc);
             clear Hp L1 L2
         end;
  repeat match goal with
         | H : Ascii.eqb _ _ = true |- _ => apply Ascii.eqb_eq in H; subst
         end;
  cbn [app] in *.

Ltac same_run H :=
  eapply (@class_run_unique is_digit) in H;
  [destruct H as (? & _ & H); subst
  | eassumption | eassumption | reflexivity | reflexivity].

(** After the minutes the AM/PM grammar wants an optional blank and a
    letter, the loose one a blank and a dash. *)
Lemma strict_excludes_loose (l : str) :
  matches ANDROID_PATTERN l = true -> matches ALTERNATIVE_PATTERN l = false.
Proof.
  unfold matches.
  destruct (re_match (regex_of ANDROID_PATTERN) l) as [[g1 r1]|] eqn:E1;
    [|discriminate].
  destruct (re_match (regex_of ALTERNATIVE_PATTERN) l) as [[g2 r2]|] eqn:E2;
    [|reflexivity].
  intros _. exfalso.
  apply re_match_sound in E1, E2.
  open_denote E1. open_denote E2. singletons.
  match goal with
  | H : _ = ?x ++ "/"%char :: _ |- _ =>
      same_run H; same_run H; same_run H;
      injection H as _ H; same_run H; rename H into E
  end.
  repeat match goal with
         | L1 : 2 <= List.length ?w, L2 : List.length ?w <= 2 |- _ =>
             destruct w as [|? [|? [|? ?]]]; simpl in L1, L2; try lia;
             clear L1 L2
         end.
  match goal with
  | L : List.length ?w <= 1, Hw : forallb is_space ?w = true |- _ =>
      destruct w as [|? [|? ?]]; simpl in L; try lia
  end; cbn [app] in E; inversion E; subst.
  - match goal with
    | Hs : is_space ?c = true, Hm : existsb (Ascii.eqb ?c) _ = true |- _ =>
        revert Hs Hm; clear; intros Hs Hm;
        destruct c as [[] [] [] [] [] [] [] []]; vm_compute in Hs, Hm;
        discriminate
    end.
  - match goal with
    | Hm : existsb (Ascii.eqb "-"%char) _ = true |- _ =>
        vm_compute in Hm; discriminate
    end.
Qed.

Lemma grammars_exclusive (p q : grammar) (line : str) :
  matches p line = true -> matches q line = true -> p = q.
Proof.
  intros Hp Hq.
  destruct p, q; try reflexivity; exfalso.
  - rewrite (@bracketed_excludes ANDROID_PATTERN line Hq) in Hp;
      [discriminate | discriminate].
  - rewrite (strict_excludes_loose _ Hp) in Hq. discriminate.
  - rewrite (@bracketed_excludes ANDROID_PATTERN line Hp) in Hq;
      [discriminate | discriminate].
  - rewrite (@bracketed_excludes ALTERNATIVE_PATTERN line Hp) in Hq;
      [discriminate | discriminate].
  - rewrite (strict_excludes_loose _ Hq) in Hp. discriminate.
  - rewrite (@bracketed_excludes ALTERNATIVE_PATTERN line Hq) in Hp;
      [discriminate | discriminate].
Qed.

Lemma first_match_none (ps : list grammar) (line : str) :
  first_match ps line = None <-> forall p, In p ps -> matches p line = false.
Proof.
  induction ps as [|q ps IH]; simpl.
  - split; [intros _ p [] | reflexivity].
  - unfold matches at 1.
    destruct (re_match (regex_of q) line) as [[g rest]|] eqn:E.
    + split; [discriminate|]. intros H.
      specialize (H q (or_introl eq_refl)). unfold matches in H.
      now rewrite E in H.
    + rewrite IH. split.
      * intros H p [<-|Hp]; [unfold matches; now rewrite E | now apply H].
      * intros H p Hp. apply H. now right.
Qed.

Lemma first_match_only (ps : list grammar) (p : grammar) (line : str)
    (g : captures) (rest : str) :
  re_match (regex_of p) line = Some (g, rest) -> In p ps ->
  first_match ps line = Some (p, groups g).
Proof.
  intros E. assert (Hp : matches p line = true) by (unfold matches; now rewrite E).
  induction ps as [|q ps IH]; simpl; [contradiction|].
  destruct (re_match (regex_of q) line) as [[g' rest']|] eqn:E'.
  - intros _. assert (Hq : matches q line = true)
      by (unfold matches; now rewrite E').
    rewrite (grammars_exclusive _ _ _ Hq Hp) in *.
    rewrite E in E'. now inversion E'.
  - intros [->|HIn]; [congruence | now apply IH].
Qed.

(** The order of the pattern list never decides which grammar reads a line:
    at most one of the three matches, so every arrangement of the list gives
    the answer of [_match_message]. *)
Theorem match_independent_of_order (ps : list grammar) (line : str) :
  Permutation ps patterns ->
  first_match ps line = first_match patterns line /\
  (forall p q, matches p line = true -> matches q line = true -> p = q).
Proof.
  intros HP. split; [|intros p q; apply grammars_exclusive].
  destruct (first_match patterns line) as [[p [[t a] b]]|] eqn:E.
  - apply first_match_sound in E. destruct E as (HIn & rest & E).
    rewrite (first_match_only ps _ _ E); [reflexivity|].
    eapply Permutation_in; [apply Permutation_sym; exact HP | exact HIn].
  - apply first_match_none. intros p Hp.
    apply (proj1 (first_match_none patterns line) E).
    eapply Permutation_in; [exact HP | exact Hp].
Qed.

Lemma match_independent_of_order_witness :
  let line := s "25/12/2023, 10:30 - Alice: [1/2/23, 10:30:00 AM] x: y" in
  let ps := [IOS_PATTERN; ALTERNATIVE_PATTERN; ANDROID_PATTERN] in
  first_match ps line = first_match patterns line /\
  (forall p q, matches p line = true -> matches q line = true -> p = q).
Proof.
  apply match_independent_of_order.
  apply Permutation_sym.
  apply (Permutation_cons_append [IOS_PATTERN; ALTERNATIVE_PATTERN]
           ANDROID_PATTERN).
Defined.

(* ================================================================== *)
(** ** A matched line is its three groups and the delimiters *)

Section Greedy.
Variable A : Type.

Lemma rep_total (p : ascii -> bool) (x : str) :
  forall hi (k : str -> option A),
    (forall y, k y <> None) -> rep p 0 hi x k <> None.
Proof.
  induction x as [|c x IH]; intros hi k Hk.
  - destruct hi as [[|h]|]; simpl; apply Hk.
  - destruct hi as [[|h]|]; simpl; try apply Hk.
    + destruct (p c); [|apply Hk].
      destruct (rep p 0 (Some h) x k) eqn:E; [discriminate | apply Hk].
    + destruct (p c); [|apply Hk].
      destruct (rep p 0 None x k) eqn:E; [discriminate | apply Hk].
Qed.

Lemma rep_greedy (p : ascii -> bool) (x : str) :
  forall lo (k : str -> option A) v,
    (forall y, k y <> None) ->
    rep p lo None x k = Some v ->
    exists w rest, x = w ++ rest /\ forallb p w = true /\
      lo <= List.length w /\ k rest = Some v /\
      match rest with [] => True | c :: _ => p c = false end.
Proof.
  induction x as [|c x IH]; intros lo k v Hk H.
  - destruct lo; simpl in H; [|discriminate].
    exists [], []. simpl. auto.
  - simpl in H. destruct (p c) eqn:Hc.
    + destruct (rep p (pred lo) None x k) eqn:E.
      * inversion H; subst. apply IH in E; [|assumption].
        destruct E as (w & rest & -> & Hw & Hlo & Hv & Hr).
        exists (c :: w), rest. simpl. rewrite Hc, Hw.
        repeat split; auto. lia.
      * destruct lo as [|[|lo]]; try discriminate;
          exfalso; revert E; now apply rep_total.
    + destruct lo; [|discriminate].
      exists [], (c :: x). simpl. auto.
Qed.

Lemma exec_seq_sound (r1 r2 : regex) x g (k : str -> captures -> option A) v :
  exec (Seq r1 r2) x g k = Some v ->
  exists x1 g1, denote r1 x g x1 g1 /\ exec r2 x1 g1 k = Some v.
Proof. simpl. intros H. now apply exec_sound in H. Qed.

End Greedy.

Lemma exec_body (x : str) (g g' : captures) (rest : str) :
  exec (Grp 3 (plus is_dot)) x g (fun x' g0 => Some (g0, x')) = Some (g', rest) ->
  exists b, x = b ++ rest /\ g' = (3, b) :: g /\ b <> [] /\
    forallb is_dot b = true /\
    match rest with [] => True | c :: _ => is_dot c = false end.
Proof.
  unfold plus. simpl. intros H.
  apply rep_greedy in H; [|discriminate].
  destruct H as (w & r & -> & Hw & Hlo & Hv & Hr).
  rewrite firstn_prefix in Hv. inversion Hv; subst.
  exists w. repeat split; auto. intros ->. simpl in Hlo. lia.
Qed.


Lemma grammar_layout (p : grammar) (line : str) (g : captures) (rest : str) :
  re_match (regex_of p) line = Some (g, rest) ->
  exists t a b, g = [(3, b); (2, a); (1, t)] /\
    (exists whole, line = whole ++ rest /\ layout p t a b whole) /\
    a <> [] /\ forallb (fun c => negb (Ascii.eqb c ":"%char)) a = true /\
    match rest with [] => True | c :: _ => is_dot c = false end.
Proof.
  unfold re_match.
  destruct p; cbn [regex_of seq app date_hour_minute am_pm author_body];
    intros H;
    repeat (apply exec_seq_sound in H; destruct H as (? & ? & ? & H));
    apply exec_body in H; destruct H as (b & -> & -> & Hb & Hd & Hr);
    repeat match goal with
           | H' : denote (Grp _ _) _ _ _ _ |- _ =>
               cbn [denote] in H'; destruct H' as (? & ? & H' & ? & ?)
           end;
    repeat match goal with
           | H' : denote ?r _ _ _ _ |- _ =>
               lazymatch r with
               | Seq _ _ => fail
               | _ => cbn [denote lit space one plus] in H';
                      destruct H' as (? & ? & ? & ? & ? & ?)
               end
           end;
    subst.
  all: match goal with
       | H' : exists x1 g1, denote _ _ _ x1 g1 /\ _ |- _ => open_denote H'
       end.
  all: match goal with
       | |- exists t a b0, (3, ?b1) :: (2, ?a1) :: (1, ?t1) :: [] = _ /\ _ =>
           exists t1, a1, b1
       end.
  all: split; [reflexivity|]; split; [|repeat split; auto].
  all: try (intros ->; simpl in *; lia).
  all: singletons.
  all: match goal with
       | |- exists whole, ?t1 ++ ?w1 :: "-"%char :: ?w2 :: ?a1 ++ ":"%char :: ?w3 :: ?b1 ++ ?r = _ /\ _ =>
           exists (t1 ++ w1 :: "-"%char :: w2 :: a1 ++ ":"%char :: w3 :: b1);
           split;
           [cbn [app]; repeat (rewrite <- app_assoc; cbn [app]); reflexivity
           | exists w1, w2, w3; auto]
       | |- exists whole, "["%char :: ?t1 ++ "]"%char :: ?w1 :: ?a1 ++ ":"%char :: ?w2 :: ?b1 ++ ?r = _ /\ _ =>
           exists ("["%char :: t1 ++ "]"%char :: w1 :: a1 ++ ":"%char :: w2 :: b1);
           split;
           [cbn [app]; repeat (rewrite <- app_assoc; cbn [app]); reflexivity
           | exists w1, w2; auto]
       end.
Qed.

(** A header line without a line feed is read whole: it is the timestamp,
    the delimiters with one blank each, the author and the body, and nothing
    is left over.  The author is never empty and holds no colon; the body is
    never empty. *)
Theorem header_line_layout (line : str) (p : grammar) (t a b : str) :
  one_line line = true ->
  first_match patterns line = Some (p, (t, a, b)) ->
  layout p t a b line /\
  a <> [] /\ forallb (fun c => negb (Ascii.eqb c ":"%char)) a = true /\
  b <> [].
Proof.
  intros L M. apply first_match_sound in M. destruct M as (_ & rest & M).
  destruct (grammar_shape _ _ M) as (t1 & a1 & b1 & Hg & _ & Hb & _).
  inversion Hg; subst t1 a1 b1.
  destruct (grammar_layout _ _ M)
    as (t' & a' & b' & Hg' & (whole & Hw & Hl) & Ha & Hc & Hr).
  inversion Hg'; subst t' a' b'.
  assert (R : rest = []).
  { destruct rest as [|c rest]; [reflexivity|]. exfalso.
    unfold one_line in L. rewrite Hw, forallb_app in L.
    apply andb_true_iff in L. destruct L as [_ L]. simpl in L.
    rewrite Hr in L. discriminate. }
  subst rest. rewrite app_nil_r in Hw. subst whole. auto.
Qed.

Lemma header_line_layout_witness :
  let line := s "[1/2/23, 9:05:59 pm] Al B : re: see 10:30" in
  layout IOS_PATTERN (s "1/2/23, 9:05:59 pm") (s "Al B ") (s "re: see 10:30")
         line /\
  s "Al B " <> [] /\
  forallb (fun c => negb (Ascii.eqb c ":"%char)) (s "Al B ") = true /\
  s "re: see 10:30" <> [].
Proof.
  apply header_line_layout; vm_compute; reflexivity.
Defined.

(* ================================================================== *)
(** ** Messages and header lines, for any input *)

Lemma is_match_not_blank (l : str) : is_match l = true -> blank l = false.
Proof.
  unfold is_match. destruct (_match_message l) as [[[t a] b]|] eqn:M;
    [|discriminate].
  intros _. eapply match_message_not_blank. exact M.
Qed.

Lemma for_lines_headers (lines : list str) :
  forall st st', for_lines lines st = Ok st' ->
    map author (seal (fst st') (snd st')) =
      map author (seal (fst st) (snd st)) ++ map header_author (headers lines) /\
    map (fun m => Some (datetime m)) (seal (fst st') (snd st')) =
      map (fun m => Some (datetime m)) (seal (fst st) (snd st))
      ++ map header_time (headers lines).
Proof.
  induction lines as [|l lines IH]; intros st st' H.
  - simpl in H. inversion H; subst. simpl. now rewrite !app_nil_r.
  - cbn [for_lines] in H. destruct (turn st l) as [st1|] eqn:T;
      cbn [bind] in H; [|discriminate].
    destruct (IH _ _ H) as [IHa IHd]. rewrite IHa, IHd. clear IHa IHd H.
    unfold headers. cbn [filter]. fold (headers lines).
    destruct st as [msgs cur]. unfold is_match.
    destruct (_match_message l) as [[[t a] b]|] eqn:M.
    + erewrite turn_header in T by eassumption.
      unfold _parse_datetime in T.
      destruct (try_formats formats t) as [d|] eqn:F; cbn [bind] in T;
        [|discriminate].
      inversion T; subst. cbn [fst snd seal map].
      assert (Ea : header_author l = strip a)
        by (unfold header_author; now rewrite M).
      assert (Ed : header_time l = Some d)
        by (unfold header_time; now rewrite M).
      rewrite Ea, Ed.
      rewrite !map_app, <- !app_assoc. split; reflexivity.
    + destruct (blank l) eqn:B.
      * rewrite turn_blank in T by assumption. inversion T; subst.
        split; reflexivity.
      * destruct cur as [m|].
        -- rewrite turn_continuation in T by assumption. inversion T; subst.
           cbn [fst snd seal]. rewrite !map_app. split; reflexivity.
        -- rewrite turn_garbage in T by assumption. inversion T; subst.
           split; reflexivity.
Qed.

(** For every input that parses, the messages are the header lines, in
    order: as many messages as lines a grammar matches, the i-th message
    carrying the trimmed author and the timestamp of the i-th such line.
    Lines before the first header, blank lines and continuation lines open
    no message. *)
Theorem messages_follow_headers (content : str) (msgs : list msg) :
  _parse_content content = Ok msgs ->
  let hs := headers (split newline content) in
  List.length msgs = List.length hs /\
  map author msgs = map header_author hs /\
  map (fun m => Some (datetime m)) msgs = map header_time hs.
Proof.
  unfold _parse_content.
  destruct (for_lines (split newline content) ([], None)) as [st|] eqn:F;
    cbn [bind]; [|discriminate].
  intros H. inversion H; subst. clear H.
  destruct (for_lines_headers _ _ F) as [Ha Hd]. cbn [fst snd seal map app] in *.
  cbv zeta. repeat split; try assumption.
  rewrite <- (length_map author), Ha. apply length_map.
Qed.

Lemma messages_follow_headers_witness :
  let content := s "lost line
1/2/2023, 10:30 AM - Alice : hi

more
[3/2/2023, 10:31:07 PM]  Bob: yo" in
  let msgs := match _parse_content content with Ok l => l | Raise _ => [] end in
  let hs := headers (split newline content) in
  List.length msgs = List.length hs /\
  map author msgs = map header_author hs /\
  map (fun m => Some (datetime m)) msgs = map header_time hs.
Proof.
  cbv zeta.
  apply (@messages_follow_headers (s "lost line
1/2/2023, 10:30 AM - Alice : hi

more
[3/2/2023, 10:31:07 PM]  Bob: yo")).
  vm_compute. reflexivity.
Defined.

(* ================================================================== *)
(** ** Lines that leave no trace *)

Lemma for_lines_split_join (ls : list str) (st : assembler) :
  Forall (fun l => one_line l = true) ls ->
  for_lines (split newline (join newline ls)) st = for_lines ls st.
Proof.
  intros F. destruct ls as [|l ls].
  - simpl. rewrite turn_blank by reflexivity. reflexivity.
  - rewrite split_join; [reflexivity | discriminate | assumption].
Qed.

Lemma for_lines_skip_blank (ls : list str) :
  forall st,
    for_lines (filter (fun l => negb (blank l)) ls) st = for_lines ls st.
Proof.
  induction ls as [|l ls IH]; intros st; [reflexivity|].
  cbn [filter for_lines]. destruct (blank l) eqn:B; cbn [negb].
  - rewrite turn_blank by assumption. cbn [bind]. apply IH.
  - cbn [for_lines]. destruct (turn st l); cbn [bind]; [apply IH | reflexivity].
Qed.

(** Blank lines change nothing: an input and the same input without its
    blank lines parse to the same result (the same messages, or the same
    exception). *)
Theorem blank_lines_leave_no_trace (ls : list str) :
  Forall (fun l => one_line l = true) ls ->
  _parse_content (join newline (filter (fun l => negb (blank l)) ls)) =
  _parse_content (join newline ls).
Proof.
  intros F. unfold _parse_content.
  rewrite !for_lines_split_join, for_lines_skip_blank; [reflexivity| |];
    try assumption.
  apply Forall_forall. intros l Hl. apply filter_In in Hl.
  apply (proj1 (Forall_forall _ _) F). tauto.
Qed.

Lemma blank_lines_leave_no_trace_witness :
  let ls := [s "  "; s "1/2/2023, 10:30 AM - Alice: hi"; []; s "there";
             s "	"; s "3/2/2023, 10:31 AM - Bob: yo"; []] in
  _parse_content (join newline (filter (fun l => negb (blank l)) ls)) =
  _parse_content (join newline ls).
Proof.
  apply blank_lines_leave_no_trace. repeat constructor.
Defined.

(** Whatever precedes the first header line is dropped: lines that no
    grammar matches, put in front of an input, do not change its parse. *)
Theorem leading_lines_are_dropped (garbage rest : list str) :
  Forall (fun l => one_line l = true) (garbage ++ rest) ->
  Forall (fun l => _match_message l = None) garbage ->
  _parse_content (join newline (garbage ++ rest)) =
  _parse_content (join newline rest).
Proof.
  intros F G. unfold _parse_content.
  rewrite !for_lines_split_join; try assumption.
  - rewrite for_lines_app, for_lines_no_header; [reflexivity|].
    eapply Forall_impl; [|exact G]. intros l Hl. now right.
  - apply Forall_app in F. tauto.
Qed.

Lemma leading_lines_are_dropped_witness :
  let garbage := [s "Messages to this chat are now secured";
                  s " 1/2/2023, 10:30 AM - Alice: indented"] in
  let rest := [s "1/2/2023, 10:30 AM - Alice: hi"; s "there"] in
  _parse_content (join newline (garbage ++ rest)) =
  _parse_content (join newline rest).
Proof.
  apply leading_lines_are_dropped; repeat constructor.
Defined.

(* ================================================================== *)
(** ** What every assembled message carries *)

Lemma lstrip_head (x : str) :
  lstrip x = [] \/ exists c r, lstrip x = c :: r /\ is_space c = false.
Proof.
  induction x as [|c x IH]; simpl; [now left|].
  destruct (is_space c) eqn:E; [exact IH|]. right. now exists c, x.
Qed.

Lemma lstrip_fixed (c : ascii) (r : str) :
  is_space c = false -> lstrip (c :: r) = c :: r.
Proof. intros H. simpl. now rewrite H. Qed.

Lemma lstrip_lstrip (x : str) : lstrip (lstrip x) = lstrip x.
Proof.
  destruct (lstrip_head x) as [->|(c & r & -> & H)]; [reflexivity|].
  now apply lstrip_fixed.
Qed.

Lemma lstrip_snoc (c : ascii) (l : str) :
  is_space c = false -> exists l', lstrip (l ++ [c]) = l' ++ [c].
Proof.
  intros H. induction l as [|d l IH]; simpl.
  - rewrite H. now exists [].
  - destruct (is_space d); [exact IH|]. now exists (d :: l).
Qed.

Lemma rstrip_head (c : ascii) (r : str) :
  is_space c = false -> exists r', rstrip (c :: r) = c :: r'.
Proof.
  intros H. unfold rstrip. simpl.
  destruct (@lstrip_snoc c (rev r) H) as [l' ->].
  rewrite rev_app_distr. simpl. now exists (rev l').
Qed.

Lemma strip_strip (x : str) : strip (strip x) = strip x.
Proof.
  assert (R : forall z, rstrip (rstrip z) = rstrip z).
  { intros z. unfold rstrip. now rewrite rev_involutive, lstrip_lstrip. }
  assert (L : lstrip (strip x) = strip x).
  { unfold strip. destruct (lstrip_head x) as [->|(c & r & -> & H)];
      [reflexivity|].
    destruct (@rstrip_head c r H) as [r' ->]. now apply lstrip_fixed. }
  unfold strip at 1. rewrite L. unfold strip. apply R.
Qed.

Lemma forallb_strip (p : ascii -> bool) (x : str) :
  forallb p x = true -> forallb p (strip x) = true.
Proof.
  unfold strip, rstrip. intros H.
  rewrite forallb_rev. apply forallb_lstrip. rewrite forallb_rev.
  now apply forallb_lstrip.
Qed.

Lemma match_message_author (line t a b : str) :
  _match_message line = Some (t, a, b) ->
  a <> [] /\ forallb (fun c => negb (Ascii.eqb c ":"%char)) a = true.
Proof.
  unfold _match_message.
  destruct (first_match patterns line) as [[p [[t' a'] b']]|] eqn:E;
    simpl; [|discriminate].
  intros H. inversion H; subst.
  apply first_match_sound in E. destruct E as (_ & rest & E).
  destruct (grammar_layout _ _ E) as (t' & a' & b' & Hg & _ & Ha & Hc & _).
  inversion Hg; subst. auto.
Qed.

Lemma try_formats_valid (fmts : list str) (t : str) (d : Strptime.datetime) :
  try_formats fmts t = Some d -> valid_datetime d.
Proof.
  induction fmts as [|f fmts IH]; simpl; [discriminate|].
  destruct (Strptime.strptime (strip t) f) as [d'|] eqn:E; [|exact IH].
  intros H. inversion H; subst d'. clear H IH.
  unfold Strptime.strptime in E.
  destruct (Strptime.pattern false f); [|discriminate].
  destruct (re_match _ _) as [[g [|]]|]; try discriminate.
  unfold Strptime.new in E.
  match type of E with
  | (if ?c then _ else _) = _ => destruct c eqn:C; [|discriminate]
  end.
  inversion E; subst d. clear E. unfold valid_datetime. simpl.
  repeat (apply andb_true_iff in C; destruct C as [C ?]).
  repeat match goal with
         | H : (_ <=? _)%Z = true |- _ => apply Z.leb_le in H
         end.
  lia.
Qed.

(** In every message of a parse the author is trimmed (trimming it again
    changes nothing) and holds no colon, and the timestamp is a real
    calendar moment: month 1 to 12, a day that the month has, hour 0 to 23,
    minute and second 0 to 59, year 1 to 9999. *)
Theorem message_fields_well_formed (content : str) (msgs : list msg)
    (m : msg) :
  _parse_content content = Ok msgs -> In m msgs ->
  strip (author m) = author m /\
  forallb (fun c => negb (Ascii.eqb c ":"%char)) (author m) = true /\
  valid_datetime (datetime m).
Proof.
  intros P HIn.
  destruct (@parse_content_opened_from content msgs m P HIn)
    as (line & t & a & b & conts & O & _).
  destruct O as (_ & M & D & A & _).
  apply match_message_author in M. destruct M as [_ Hc].
  rewrite A. split; [apply strip_strip|]. split; [now apply forallb_strip|].
  apply parse_datetime_ok in D. eapply try_formats_valid. exact D.
Qed.

Lemma message_fields_well_formed_witness :
  let content := s "29/2/24, 11:59 pm -   Dr. Who 	: at 10:30: ok" in
  let msgs := match _parse_content content with Ok l => l | Raise _ => [] end in
  let m := hd {| datetime := Strptime.mkdt 0 0 0 0 0 0; author := [];
                 message := []; is_media := false; is_system := false |} msgs in
  (author m = s "Dr. Who" /\ datetime m = Strptime.mkdt 2024 2 29 23 59 0) /\
  strip (author m) = author m /\
  forallb (fun c => negb (Ascii.eqb c ":"%char)) (author m) = true /\
  valid_datetime (datetime m).
Proof.
  cbv zeta. split; [vm_compute; auto|].
  apply (@message_fields_well_formed
           (s "29/2/24, 11:59 pm -   Dr. Who 	: at 10:30: ok")
           (match _parse_content
                    (s "29/2/24, 11:59 pm -   Dr. Who 	: at 10:30: ok")
            with Ok l => l | Raise _ => [] end)).
  - vm_compute. reflexivity.
  - vm_compute. left. reflexivity.
Defined.

(* ================================================================== *)
(** ** What the keyword search finds *)

Lemma any_indicator_iff (indicators : list str) (message : str) :
  any_indicator indicators message = true <->
  exists i p q, In i indicators /\ lower message = p ++ lower i ++ q.
Proof.
  unfold any_indicator. rewrite existsb_exists. split.
  - intros (i & Hi & H). apply contains_iff in H. destruct H as (p & q & H).
    now exists i, p, q.
  - intros (i & p & q & Hi & H). exists i. split; [assumption|].
    apply contains_iff. now exists p, q.
Qed.

Lemma any_indicator_embedded (indicators : list str) (before message after : str) :
  any_indicator indicators message = true ->
  any_indicator indicators (before ++ message ++ after) = true.
Proof.
  rewrite !any_indicator_iff. intros (i & p & q & Hi & H).
  exists i, (lower before ++ p), (q ++ lower after). split; [assumption|].
  unfold lower in *. rewrite !map_app, H.
  now rewrite <- !app_assoc.
Qed.

(** A body is flagged as media (as system) exactly when its lower-cased
    text contains a lower-cased media (system) indicator somewhere; so any
    text around a flagged body, before or after, in any letter case, leaves
    it flagged: ordinary sentences that happen to hold "left" or ".png" are
    flagged too. *)
Theorem flags_are_substring_tests (author0 before message after : str) :
  (_is_media_message message = true <->
   exists i p q, In i media_indicators /\ lower message = p ++ lower i ++ q) /\
  (_is_system_message author0 message = true <->
   exists i p q, In i system_indicators /\ lower message = p ++ lower i ++ q) /\
  (_is_media_message message = true ->
   _is_media_message (before ++ message ++ after) = true) /\
  (_is_system_message author0 message = true ->
   _is_system_message author0 (before ++ message ++ after) = true).
Proof.
  repeat split;
    try apply any_indicator_iff; try apply any_indicator_embedded;
    unfold _is_media_message, _is_system_message;
    intros H; now apply any_indicator_iff.
Qed.

(* ================================================================== *)
(** ** The summary of a loaded chat *)

Lemma count_le (f : msg -> bool) (rows : DataFrame) :
  count f rows <= List.length rows.
Proof. unfold count. apply filter_length_le. Qed.

Lemma count_flags (rows : DataFrame) :
  count is_media rows + count is_system rows
  + count (fun m => negb (is_media m) && negb (is_system m)) rows
  = List.length rows + count (fun m => is_media m && is_system m) rows.
Proof.
  unfold count. induction rows as [|r rows IH]; [reflexivity|].
  cbn [filter]. destruct (is_media r), (is_system r); cbn [negb andb length];
    cbn [List.length]; lia.
Qed.

Lemma str_eqb_eq (a b : str) : Strptime.str_eqb a b = true <-> a = b.
Proof.
  unfold Strptime.str_eqb. destruct (list_eq_dec ascii_dec a b); split;
    congruence.
Qed.

Lemma unique_spec (names : list str) :
  forall seen,
    NoDup (unique seen names) /\
    forall a, In a (unique seen names) <-> In a names /\ ~ In a seen.
Proof.
  induction names as [|n names IH]; intros seen; simpl.
  - split; [constructor | tauto].
  - destruct (existsb (Strptime.str_eqb n) seen) eqn:E.
    + destruct (IH seen) as [N I]. split; [exact N|]. intros a. rewrite I.
      apply existsb_exists in E. destruct E as (x & Hx & Ex).
      apply str_eqb_eq in Ex. subst x. split; [tauto|].
      intros [[<-|H] Hs]; [contradiction | tauto].
    + destruct (IH (n :: seen)) as [N I]. split.
      * constructor; [|exact N]. rewrite I. simpl. tauto.
      * intros a. simpl. rewrite I. simpl.
        assert (Hn : ~ In n seen).
        { intros Hn. apply not_true_iff_false in E. apply E.
          apply existsb_exists. exists n. split; [exact Hn|].
          now apply str_eqb_eq. }
        destruct (list_eq_dec ascii_dec n a) as [<-|D]; tauto.
Qed.

(** For a parser holding a table with at least one row, the summary has its
    seven entries in the order of the source; [total_messages] is the number
    of rows; [participant_names] lists every author once, [participants]
    being its length; and since the two flags are independent,
    media + system + text = total + (rows flagged both media and system):
    the three counts add up to the total exactly when no row has both
    flags. *)
Theorem chat_info_of_table (self : parser) (table : DataFrame) :
  df self = Some table -> table <> [] ->
  exists names range media system text,
    get_chat_info self =
      [(s "total_messages", VInt (List.length table));
       (s "participants", VInt (List.length names));
       (s "participant_names", VNames names);
       (s "date_range", range);
       (s "media_messages", VInt media);
       (s "system_messages", VInt system);
       (s "text_messages", VInt text)] /\
    NoDup names /\
    (forall a, In a names <-> exists m, In m table /\ author m = a) /\
    media + system + text =
      List.length table + count (fun m => is_media m && is_system m) table /\
    text <= List.length table.
Proof.
  intros D N. unfold get_chat_info. rewrite D.
  destruct table as [|r rows]; [congruence|].
  do 5 eexists. split; [reflexivity|].
  destruct (unique_spec (map author (r :: rows)) []) as [U I].
  split; [exact U|]. split; [|split; [apply count_flags | apply count_le]].
  intros a. rewrite I, in_map_iff. split.
  - intros [(m & E & H) _]. exists m. auto.
  - intros (m & H & E). split; [exists m; auto | intros []].
Qed.

Lemma chat_info_of_table_witness :
  let fs := one_file "chat.txt" "1/2/2023, 10:30 AM - Alice: hi
1/2/2023, 10:31 AM - Bob: Alice left photo.png
1/2/2023, 10:32 AM - Alice: <Media omitted>" in
  let self := snd (load_chat (__init__ None) fs (Some (s "chat.txt"))) in
  let table := match df self with Some t => t | None => [] end in
  exists names range media system text,
    get_chat_info self =
      [(s "total_messages", VInt (List.length table));
       (s "participants", VInt (List.length names));
       (s "participant_names", VNames names);
       (s "date_range", range);
       (s "media_messages", VInt media);
       (s "system_messages", VInt system);
       (s "text_messages", VInt text)] /\
    NoDup names /\
    (forall a, In a names <-> exists m, In m table /\ author m = a) /\
    media + system + text =
      List.length table + count (fun m => is_media m && is_system m) table /\
    text <= List.length table.
Proof.
  cbv zeta. apply chat_info_of_table.
  - vm_compute. reflexivity.
  - vm_compute. discriminate.
Defined.

Lemma fold_earliest_first (rows : DataFrame) (d : Strptime.datetime) :
  Forall (fun m => Strptime.leb d (datetime m) = true) rows ->
  fold_left earliest (map datetime rows) d = d.
Proof.
  induction 1 as [|m rows Hm _ IH]; simpl; [reflexivity|].
  unfold earliest at 2. now rewrite Hm.
Qed.

Lemma last_cons_nonempty (m : msg) (rows : DataFrame) (d1 d2 : msg) :
  last (m :: rows) d1 = last (m :: rows) d2.
Proof.
  revert m. induction rows as [|r rows IH]; intros m; [reflexivity|].
  change (last (r :: rows) d1 = last (r :: rows) d2). apply IH.
Qed.

Lemma fold_latest_last (rows : DataFrame) :
  forall r, StronglySorted not_after (r :: rows) ->
            fold_left latest (map datetime rows) (datetime r)
            = datetime (last rows r).
Proof.
  induction rows as [|m rows IH]; intros r S; [reflexivity|].
  inversion S as [|? ? S' F]; subst. inversion F as [|? ? Hm _]; subst.
  cbn [map fold_left]. unfold latest at 2. unfold not_after in Hm. rewrite Hm.
  rewrite (IH m S'). f_equal.
  destruct rows as [|m' rows]; [reflexivity|].
  change (last (m' :: rows) m = last (m' :: rows) r).
  apply last_cons_nonempty.
Qed.

Lemma load_chat_ok (self self' : parser) (fs : filesystem)
    (path_arg : option str) (table : DataFrame) :
  load_chat self fs path_arg = (Ok table, self') ->
  df self' = Some table /\ StronglySorted not_after table.
Proof.
  unfold load_chat.
  destruct (or_else path_arg (file_path self)) as [[|c path]|];
    try discriminate.
  destruct (fs (c :: path)) as [content|]; try discriminate.
  destruct (_parse_content content) as [msgs|]; try discriminate.
  intros H. inversion H; subst; clear H. split; [reflexivity|].
  destruct msgs as [|m msgs]; [constructor|].
  apply (sort_values_sorted (m :: msgs)).
Qed.

(** After a load that returned rows, the summary's [date_range] runs from
    the timestamp of the first row of the table to that of its last row, and
    [total_messages] is the number of rows returned. *)
Theorem chat_info_after_load (self self' : parser) (fs : filesystem)
    (path_arg : option str) (r : msg) (rows : DataFrame) :
  load_chat self fs path_arg = (Ok (r :: rows), self') ->
  lookup (s "date_range") (get_chat_info self') =
    Some (VRange (datetime r) (datetime (last rows r))) /\
  lookup (s "total_messages") (get_chat_info self') =
    Some (VInt (S (List.length rows))).
Proof.
  intros H. apply load_chat_ok in H. destruct H as [D S].
  unfold get_chat_info. rewrite D. split; [|reflexivity].
  transitivity
    (Some (VRange (fold_left earliest (map datetime rows) (datetime r))
                  (fold_left latest (map datetime rows) (datetime r))));
    [reflexivity|].
  rewrite fold_latest_last by assumption.
  rewrite fold_earliest_first; [reflexivity|].
  inversion S; subst. assumption.
Qed.

Lemma chat_info_after_load_witness :
  let fs := one_file "chat.txt" "3/2/2023, 9:00 PM - Bob: late
1/2/2023, 10:30 AM - Alice: early
2/2/2023, 8:15 AM - Bob: middle" in
  let r := load_chat (__init__ None) fs (Some (s "chat.txt")) in
  lookup (s "date_range") (get_chat_info (snd r)) =
    Some (VRange (Strptime.mkdt 2023 2 1 10 30 0)
                 (Strptime.mkdt 2023 2 3 21 0 0)) /\
  lookup (s "total_messages") (get_chat_info (snd r)) = Some (VInt 3).
Proof.
  cbv zeta.
  pose (early := {| datetime := Strptime.mkdt 2023 2 1 10 30 0;
                    author := s "Alice"; message := s "early";
                    is_media := false; is_system := false |}).
  pose (middle := {| datetime := Strptime.mkdt 2023 2 2 8 15 0;
                     author := s "Bob"; message := s "middle";
                     is_media := false; is_system := false |}).
  pose (late := {| datetime := Strptime.mkdt 2023 2 3 21 0 0;
                   author := s "Bob"; message := s "late";
                   is_media := false; is_system := false |}).
  pose (fs := one_file "chat.txt" "3/2/2023, 9:00 PM - Bob: late
1/2/2023, 10:30 AM - Alice: early
2/2/2023, 8:15 AM - Bob: middle").
  apply (@chat_info_after_load (__init__ None)
           (snd (load_chat (__init__ None) fs (Some (s "chat.txt"))))
           fs (Some (s "chat.txt")) early [middle; late]).
  vm_compute. reflexivity.
Defined.

(* ================================================================== *)
(** ** Words and characters of an assembled body *)

Import ChatAnalyzer.

Lemma split_blank_app (x y : str) (c : ascii) :
  is_space c = true ->
  forall word,
    split_blank word (x ++ c :: y) = split_blank word x ++ split_blank [] y.
Proof.
  intros Hc. induction x as [|d x IH]; intros word; simpl.
  - rewrite Hc. now destruct word.
  - destruct (is_space d); [|apply IH].
    destruct word; rewrite IH; reflexivity.
Qed.

Lemma split_blank_lstrip (x : str) :
  split_blank [] (lstrip x) = split_blank [] x.
Proof.
  induction x as [|c x IH]; simpl; [reflexivity|].
  destruct (is_space c) eqn:E; [exact IH|]. simpl. now rewrite E.
Qed.

Lemma split_blank_trailing (sp : str) :
  forallb is_space sp = true ->
  forall x word, split_blank word (x ++ sp) = split_blank word x.
Proof.
  induction sp as [|c sp IH]; simpl; intros H x word.
  - now rewrite app_nil_r.
  - apply andb_true_iff in H. destruct H as [Hc Hsp].
    rewrite split_blank_app by assumption.
    specialize (IH Hsp [] []). simpl in IH. rewrite IH. apply app_nil_r.
Qed.

Lemma lstrip_decompose (x : str) :
  exists sp, x = sp ++ lstrip x /\ forallb is_space sp = true.
Proof.
  induction x as [|c x IH]; simpl; [now exists []|].
  destruct (is_space c) eqn:E; [|now exists []].
  destruct IH as (sp & Hx & Hsp). exists (c :: sp). simpl.
  rewrite E, Hsp. now rewrite <- Hx.
Qed.

Lemma rstrip_decompose (x : str) :
  exists sp, x = rstrip x ++ sp /\ forallb is_space sp = true.
Proof.
  unfold rstrip. destruct (lstrip_decompose (rev x)) as (sp & Hx & Hsp).
  exists (rev sp). rewrite forallb_rev. split; [|assumption].
  rewrite <- rev_app_distr, <- Hx. now rewrite rev_involutive.
Qed.

Lemma words_strip (x : str) : words (strip x) = words x.
Proof.
  unfold words, strip. rewrite <- (split_blank_lstrip x).
  destruct (rstrip_decompose (lstrip x)) as (sp & Hx & Hsp).
  rewrite Hx at 2. now rewrite split_blank_trailing.
Qed.

Lemma words_continuations (x : str) (conts : list str) :
  words (x ++ flat_map (fun c => newline :: strip c) conts)
  = words x + list_sum (map words conts).
Proof.
  revert x. induction conts as [|c conts IH]; intros x; simpl.
  - now rewrite app_nil_r.
  - pose proof (words_strip c) as W. unfold words in *.
    rewrite split_blank_app by reflexivity.
    now rewrite length_app, IH, W.
Qed.

Lemma length_continuations (x : str) (conts : list str) :
  List.length (x ++ flat_map (fun c => newline :: strip c) conts)
  = List.length x + list_sum (map (fun c => S (List.length (strip c))) conts).
Proof.
  rewrite length_app. f_equal.
  induction conts as [|c conts IH]; simpl; [reflexivity|].
  now rewrite length_app, IH.
Qed.

(** The analyzer's columns follow the lines the parser assembled: the
    [word_count] of a message is the number of words of the body captured on
    its header line plus those of its continuation lines (trimming and the
    joining line feeds add and remove no word), and its [message_length] is
    the length of the trimmed captured body plus, for each continuation
    line, one line feed and its trimmed length. *)
Theorem columns_follow_lines (content : str) (msgs : list msg) (m : msg) :
  _parse_content content = Ok msgs -> In m msgs ->
  exists line t a b conts,
    opened_from (split newline content) m line t a b conts /\
    word_count m = words b + list_sum (map words conts) /\
    message_length m =
      List.length (strip b)
      + list_sum (map (fun c => S (List.length (strip c))) conts).
Proof.
  intros P HIn.
  destruct (@parse_content_opened_from content msgs m P HIn)
    as (line & t & a & b & conts & O & _).
  exists line, t, a, b, conts. split; [exact O|].
  destruct O as (_ & _ & _ & _ & _ & _ & _ & Hbody).
  unfold word_count, message_length. rewrite Hbody.
  rewrite words_continuations, words_strip, length_continuations. auto.
Qed.

Lemma columns_follow_lines_witness :
  let content := s "1/2/2023, 10:30 AM - Alice:   two words  
  and three more	
last" in
  let msgs := match _parse_content content with Ok l => l | Raise _ => [] end in
  let m := hd {| datetime := Strptime.mkdt 0 0 0 0 0 0; author := [];
                 message := []; is_media := false; is_system := false |} msgs in
  (word_count m = 6 /\ message_length m = 29) /\
  exists line t a b conts,
    opened_from (split newline content) m line t a b conts /\
    word_count m = words b + list_sum (map words conts) /\
    message_length m =
      List.length (strip b)
      + list_sum (map (fun c => S (List.length (strip c))) conts).
Proof.
  cbv zeta. split; [vm_compute; auto|].
  eapply columns_follow_lines.
  - vm_compute. reflexivity.
  - vm_compute. left. reflexivity.
Defined.

Lemma flags_are_substring_tests_witness :
  _is_system_message (s "Bob") (s "I " ++ s "LEFT" ++ s " my keys at home")
    = true /\
  _is_media_message (s "see " ++ s "cat.PNG" ++ s "!") = true.
Proof.
  split.
  - apply (proj2 (proj2 (proj2
      (flags_are_substring_tests (s "Bob") (s "I ") (s "LEFT")
         (s " my keys at home"))))).
    vm_compute. reflexivity.
  - apply (proj1 (proj2 (proj2
      (flags_are_substring_tests [] (s "see ") (s "cat.PNG") (s "!"))))).
    vm_compute. reflexivity.
Defined.
